(** * radiobs-bot: the status normaliser, the title derivation and the poll loop

    A shallow embedding of [radiobsmatrix/core/main.py].

    - Python values decoded from the radio API's JSON body are the inductive
      type [pyval]; a [str] is the [string] of its UTF-8 bytes (the two
      characters the code looks for, '/' and '_', are ASCII, so splitting and
      replacing bytewise agrees with Python's [str.split] and [str.replace]).
    - [RadioStatus] is the pydantic model of lines 19-28, [parse_list] its
      "before" validator (lines 30-39) and [model_validate] pydantic's
      validation of the nine [str | None] fields.
    - [main] (lines 42-177) runs in a small monad with the local variable
      [current_title] as state, the calls made on the Matrix client, the HTTP
      client and the logger as a trace, and Python exceptions as results. *)

From Stdlib Require Import ZArith List Bool Ascii String Lia.
From Stdlib Require Import SpecFloat.
Import ListNotations.

Local Open Scope string_scope.
Local Open Scope list_scope.

Set Warnings "-register-all".

(* ------------------------------------------------------------------ *)
(** ** Python values *)

(** What [response.json()] can return: [None], [bool], [int], [float], [str],
    [list] and [dict].  A [dict] is its list of items in insertion order, the
    keys pairwise different for Python's [==].  [json.loads] only builds
    dicts with [str] keys; the comprehension of [parse_list] can build one
    with any hashable key. *)
Inductive pyval : Type :=
| PNone
| PBool (b : bool)
| PInt (z : Z)
| PFloat (f : spec_float)
| PStr (s : string)
| PList (items : list pyval)
| PDict (items : list (pyval * pyval)).

(** Python exceptions, by the [except] clause that catches them in [main]:
    [httpx.HTTPError] and its subclasses, the other subclasses of [Exception]
    (among them pydantic's [ValidationError], [TypeError] and
    [json.JSONDecodeError]), and the exceptions that derive from
    [BaseException] only ([asyncio.CancelledError], [KeyboardInterrupt]). *)
Inductive exn_class : Type := HTTPError | OtherException | BaseExceptionOnly.

Inductive exn : Type := Exn (cls : exn_class) (name : string).

Definition exn_cls (e : exn) : exn_class := let (c, _) := e in c.

Definition ValidationError : exn := Exn OtherException "ValidationError".
Definition TypeError : exn := Exn OtherException "TypeError".
Definition JSONDecodeError : exn := Exn OtherException "JSONDecodeError".
Definition HTTPStatusError : exn := Exn HTTPError "HTTPStatusError".

(** A computation that returns or raises. *)
Inductive result (A : Type) : Type :=
| Ok (a : A)
| Err (e : exn).
Arguments Ok {A} a.
Arguments Err {A} e.

(** [isinstance(v, list)] and [isinstance(v, dict)]. *)
Definition is_list (v : pyval) : bool :=
  match v with PList _ => true | _ => false end.

Definition is_dict (v : pyval) : bool :=
  match v with PDict _ => true | _ => false end.

(** [hash(v)] succeeds on the scalars and raises [TypeError] on lists and
    dicts. *)
Definition hashable (v : pyval) : bool :=
  match v with PList _ | PDict _ => false | _ => true end.

(** *** Equality of dict keys *)

(** The numeric value of a key: [bool] and [int] are integers, a finite
    float is [m * 2^e]. *)
Inductive numval : Type :=
| NFinite (m e : Z)
| NPosInf
| NNegInf
| NNaN.

Definition float_numval (f : spec_float) : numval :=
  match f with
  | S754_zero _ => NFinite 0 0
  | S754_infinity false => NPosInf
  | S754_infinity true => NNegInf
  | S754_nan => NNaN
  | S754_finite s m e => NFinite (if s then Z.neg m else Z.pos m) e
  end.

Definition numval_of (v : pyval) : option numval :=
  match v with
  | PBool b => Some (NFinite (if b then 1 else 0) 0)
  | PInt z => Some (NFinite z 0)
  | PFloat f => Some (float_numval f)
  | _ => None
  end.

(** Python compares an [int] and a [float] by their exact values.  The
    decoder returns one shared object for every [NaN] constant, and a dict
    compares keys by identity before [==], so two NaN keys are the same key. *)
Definition numval_eqb (a b : numval) : bool :=
  match a, b with
  | NFinite m1 e1, NFinite m2 e2 =>
      let e := Z.min e1 e2 in
      (m1 * 2 ^ (e1 - e) =? m2 * 2 ^ (e2 - e))%Z
  | NPosInf, NPosInf => true
  | NNegInf, NNegInf => true
  | NNaN, NNaN => true
  | _, _ => false
  end.

(** Key equality on hashable values. *)
Definition key_eqb (a b : pyval) : bool :=
  match a, b with
  | PNone, PNone => true
  | PStr s, PStr t => String.eqb s t
  | _, _ =>
      match numval_of a, numval_of b with
      | Some x, Some y => numval_eqb x y
      | _, _ => false
      end
  end.

(** ** Dicts *)

(** [d[k] = v]: an existing key keeps its place and takes the new value, a
    new key goes to the end. *)
Fixpoint dict_set (d : list (pyval * pyval)) (k v : pyval)
  : list (pyval * pyval) :=
  match d with
  | [] => [(k, v)]
  | (k', v') :: d' =>
      if key_eqb k' k then (k', v) :: d' else (k', v') :: dict_set d' k v
  end.

(** [d.get(k)]. *)
Fixpoint dict_get (d : list (pyval * pyval)) (k : pyval) : option pyval :=
  match d with
  | [] => None
  | (k', v') :: d' => if key_eqb k' k then Some v' else dict_get d' k
  end.

(* ------------------------------------------------------------------ *)
(** ** RadioStatus (lines 19-39) *)

Record RadioStatus : Type := mkRadioStatus {
  encoder : option string;
  filename : option string;
  initial_uri : option string;
  language : option string;
  rid : option string;
  status : option string;
  temporary : option string;
  title : option string;
  vendor : option string
}.

(** The record every field of which is [None]. *)
Definition empty_status : RadioStatus :=
  mkRadioStatus None None None None None None None None None.

(** [isinstance(item, list) and len(item) == 2], the filter of the
    comprehension. *)
Definition is_pair (item : pyval) : bool :=
  match item with
  | PList [_; _] => true
  | _ => false
  end.

(** The comprehension [{item[0]: item[1] for item in data if ...}]: the
    items are visited in order, each one that passes the filter stores
    [item[1]] under [item[0]], and a key that cannot be hashed raises
    [TypeError]. *)
Fixpoint dict_of_pairs (acc : list (pyval * pyval)) (data : list pyval)
  : result (list (pyval * pyval)) :=
  match data with
  | [] => Ok acc
  | item :: rest =>
      match item with
      | PList [k; v] =>
          if hashable k then dict_of_pairs (dict_set acc k v) rest
          else Err TypeError
      | _ => dict_of_pairs acc rest
      end
  end.

(** [RadioStatus.parse_list] (lines 32-39). *)
Definition parse_list (data : pyval) : result pyval :=
  match data with
  | PList items =>
      match dict_of_pairs [] items with
      | Ok d => Ok (PDict d)
      | Err e => Err e
      end
  | _ => Ok data
  end.

(** A field declared [str | None = None]: a missing key takes the default,
    [None] and a [str] are accepted, and any other value is a validation
    error (pydantic does not turn numbers, booleans, lists or dicts into
    strings). *)
Definition validate_field (d : list (pyval * pyval)) (name : string)
  : result (option string) :=
  match dict_get d (PStr name) with
  | None => Ok None
  | Some PNone => Ok None
  | Some (PStr s) => Ok (Some s)
  | Some _ => Err ValidationError
  end.

Definition field_names : list string :=
  ["encoder"; "filename"; "initial_uri"; "language"; "rid"; "status";
   "temporary"; "title"; "vendor"].

(** Validation of the model after the "before" validator: the input has to
    be a dict; keys that are no field are ignored; pydantic validates every
    field and raises one [ValidationError] if any of them is wrong. *)
Definition validate_model (v : pyval) : result RadioStatus :=
  match v with
  | PDict d =>
      match validate_field d "encoder", validate_field d "filename",
            validate_field d "initial_uri", validate_field d "language",
            validate_field d "rid", validate_field d "status",
            validate_field d "temporary", validate_field d "title",
            validate_field d "vendor" with
      | Ok a, Ok b, Ok c, Ok e, Ok f, Ok g, Ok h, Ok i, Ok j =>
          Ok (mkRadioStatus a b c e f g h i j)
      | _, _, _, _, _, _, _, _, _ => Err ValidationError
      end
  | _ => Err ValidationError
  end.

(** [RadioStatus.model_validate(data)] (line 116). *)
Definition model_validate (data : pyval) : result RadioStatus :=
  match parse_list data with
  | Ok v => validate_model v
  | Err e => Err e
  end.

(* ------------------------------------------------------------------ *)
(** ** The strings of the title derivation (line 121) *)

(** [s.split(sep)] for a separator of one character: the segments between
    the separators, in order; the list is never empty. *)
Fixpoint split (sep : ascii) (s : string) : list string :=
  match s with
  | EmptyString => [EmptyString]
  | String c s' =>
      if Ascii.eqb c sep then EmptyString :: split sep s'
      else match split sep s' with
           | [] => [String c EmptyString]
           | seg :: segs => String c seg :: segs
           end
  end.

(** [s.replace(old, new)] for strings of one character. *)
Fixpoint replace (old new : ascii) (s : string) : string :=
  match s with
  | EmptyString => EmptyString
  | String c s' => String (if Ascii.eqb c old then new else c) (replace old new s')
  end.

(** Truth value of a [str | None]: [None] and the empty string are false. *)
Definition truthy (o : option string) : bool :=
  match o with
  | Some (String _ _) => true
  | _ => false
  end.

(** Lines 118-123: the value of [song_title] when line 125 is reached.
    [split] returns at least one segment, so [[-1]] is the last one and the
    default of [last] is never used. *)
Definition song_title (st : RadioStatus) : string :=
  match title st with
  | Some (String c t) => String c t
  | _ =>
      match filename st with
      | Some (String c f) =>
          replace "_" " " (last (split "/" (String c f)) EmptyString)
      | _ => "Unknown Song"
      end
  end.

(** [a != b] for a [str] and a [str | None]. *)
Definition title_neb (a : string) (b : option string) : bool :=
  match b with
  | Some s => negb (String.eqb a s)
  | None => true
  end.

(** The condition of line 125, [song_title and song_title != current_title]. *)
Definition should_notify (candidate : string) (current_title : option string)
  : bool :=
  truthy (Some candidate) && title_neb candidate current_title.

(* ------------------------------------------------------------------ *)
(** ** Settings (config.py) *)

Record MatrixSettings : Type := mkMatrixSettings {
  homeserver : string;
  user : string;
  password : string;
  room_id : string;
  send_messages : bool;
  update_topic : bool
}.

Record RadioSettings : Type := mkRadioSettings {
  name : string;
  stream_url : string;
  api_url : string;
  poll_interval : Z
}.

Record Settings : Type := mkSettings {
  matrix : MatrixSettings;
  radio : RadioSettings
}.

(* ------------------------------------------------------------------ *)
(** ** What the program does to the outside, and what comes back *)

(** One constructor per logging call of [main], in source order. *)
Inductive log_record : Type :=
| LogMissingConfig
| LogInitializing
| LogLoggingIn
| LogLoginFailed (message : string)
| LogLoggedIn
| LogResolving (alias : string)
| LogResolveFailed (alias message : string)
| LogResolved (room : string)
| LogJoining (room : string)
| LogJoinFailed (room message : string)
| LogSetupException (e : exn)
| LogStartPolling (url : string) (interval : Z)
| LogMusicChanged (song : string)
| LogInitialSong (song : string)
| LogSendFailed (message : string)
| LogTopicFailed (message : string)
| LogTopicUpdated (topic : string)
| LogHttpError (e : exn)
| LogUnexpectedError (e : exn)
| LogClosing.

(** The calls [main] makes, in the order it makes them. *)
Inductive event : Type :=
| Log (r : log_record)
| ClientNew (hs usr : string)
| ClientLogin (pw : string)
| ClientRoomResolveAlias (alias : string)
| ClientJoin (room : string)
| ClientRoomSend (room body : string)
| ClientRoomPutState (room topic : string)
| ClientLogout
| ClientClose
| HttpOpen
| HttpGet (url : string)
| HttpClose
| Sleep (seconds : Z).

(** The responses of matrix-nio that [main] tells apart. *)
Inductive login_res : Type := LoginResponse | LoginError (message : string).

Inductive resolve_res : Type :=
| RoomResolveAliasResponse (room : string)
| RoomResolveAliasError (message : string).

Inductive join_res : Type := JoinResponse | JoinError (message : string).

Inductive send_res : Type := RoomSendResponse | RoomSendError (message : string).

Inductive topic_res : Type :=
| RoomPutStateResponse
| RoomPutStateError (message : string).

(** An HTTP response: whether [raise_for_status] raises, and the decoded
    body ([None] when the body is no JSON and [json()] raises). *)
Record Response : Type := mkResponse {
  status_is_error : bool;
  json : option pyval
}.

(** The outcome of every call of the set-up and of the final clean-up.  In
    one run at most one [logout] is reached, and at most one [close] outside
    the [except] handler of line 98. *)
Record setup_env : Type := mkSetupEnv {
  login_out : result login_res;
  resolve_out : result resolve_res;
  join_out : result join_res;
  logout_out : result unit;
  close_out : result unit;
  handler_close_out : result unit
}.

(** The outcome of every call of one iteration of the loop. *)
Record poll_env : Type := mkPollEnv {
  get_out : result Response;
  send_out : result send_res;
  topic_out : result topic_res;
  sleep_out : result unit
}.

Record world : Type := mkWorld {
  setup : setup_env;
  polls : list poll_env
}.

(* ------------------------------------------------------------------ *)
(** ** The monad of [main] *)

(** How a block ends: it falls through with a value, it raises, or the
    script of the outside world is used up while the program is still
    polling. *)
Inductive res (A : Type) : Type :=
| Ret (a : A)
| Raise (e : exn)
| Pending.
Arguments Ret {A} a.
Arguments Raise {A} e.
Arguments Pending {A}.

(** State: the local variable [current_title]. *)
Definition M (A : Type) : Type :=
  option string -> list event * option string * res A.

Definition ret {A} (a : A) : M A := fun s => ([], s, Ret a).

Definition bind {A B} (m : M A) (k : A -> M B) : M B :=
  fun s =>
    match m s with
    | (t, s', Ret a) =>
        match k a s' with
        | (t', s'', r) => (t ++ t', s'', r)
        end
    | (t, s', Raise e) => (t, s', Raise e)
    | (t, s', Pending) => (t, s', Pending)
    end.

Notation "x <- m ;; k" := (bind m (fun x => k))
  (at level 61, m at next level, right associativity).
Notation "m ;; k" := (bind m (fun _ => k))
  (at level 61, right associativity).

Definition emit (ev : event) : M unit := fun s => ([ev], s, Ret tt).

Definition log (r : log_record) : M unit := emit (Log r).

Definition raise {A} (e : exn) : M A := fun s => ([], s, Raise e).

Definition pending {A} : M A := fun s => ([], s, Pending).

Definition get_title : M (option string) := fun s => ([], s, Ret s).

Definition set_title (v : option string) : M unit := fun _ => ([], v, Ret tt).

Definition lift {A} (r : result A) : M A :=
  match r with
  | Ok a => ret a
  | Err e => raise e
  end.

(** An awaited call: the call is made, then it returns or raises. *)
Definition call {A} (ev : event) (out : result A) : M A :=
  emit ev ;; lift out.

(** [try: m  except <classes> as e: handler e]; [handler] returns [None] for
    an exception no clause matches. *)
Definition try_except {A} (m : M A) (handler : exn -> option (M A)) : M A :=
  fun s =>
    match m s with
    | (t, s', Raise e) =>
        match handler e with
        | Some h =>
            match h s' with
            | (t', s'', r) => (t ++ t', s'', r)
            end
        | None => (t, s', Raise e)
        end
    | other => other
    end.

(** [try: m  finally: fin].  The clean-up runs when the block returns or
    raises; an exception of the clean-up replaces the result of the block. *)
Definition try_finally {A} (m : M A) (fin : M unit) : M A :=
  fun s =>
    match m s with
    | (t, s', Pending) => (t, s', Pending)
    | (t, s', r) =>
        match fin s' with
        | (t', s'', Ret _) => (t ++ t', s'', r)
        | (t', s'', Raise e) => (t ++ t', s'', Raise e)
        | (t', s'', Pending) => (t ++ t', s'', Pending)
        end
    end.

(** [except Exception] catches every class but [BaseExceptionOnly]. *)
Definition is_Exception (e : exn) : bool :=
  match exn_cls e with
  | BaseExceptionOnly => false
  | _ => true
  end.

Definition is_HTTPError (e : exn) : bool :=
  match exn_cls e with
  | HTTPError => true
  | _ => false
  end.

(* ------------------------------------------------------------------ *)
(** ** [main] (lines 42-177) *)

(** Line 132, the body of the message. *)
Definition message_of (song : string) : string :=
  "🎵 Now playing: **" ++ song ++ "**".

(** Line 150, the topic. *)
Definition topic_of (settings : Settings) (song : string) : string :=
  "[" ++ name (radio settings) ++ "](" ++ stream_url (radio settings)
  ++ ") - 🎵 Now playing: " ++ song.

(** [response.raise_for_status()] and [response.json()] (lines 113, 115). *)
Definition raise_for_status (response : Response) : M unit :=
  if status_is_error response then raise HTTPStatusError else ret tt.

Definition response_json (response : Response) : M pyval :=
  match json response with
  | Some data => ret data
  | None => raise JSONDecodeError
  end.

(** Lines 131-146. *)
Definition send_message (settings : Settings) (room : string)
    (env : poll_env) (song : string) : M unit :=
  if send_messages (matrix settings) then
    r <- call (ClientRoomSend room (message_of song)) (send_out env) ;;
    match r with
    | RoomSendError message => log (LogSendFailed message)
    | RoomSendResponse => ret tt
    end
  else ret tt.

(** Lines 148-162. *)
Definition put_topic (settings : Settings) (room : string)
    (env : poll_env) (song : string) : M unit :=
  if update_topic (matrix settings) then
    r <- call (ClientRoomPutState room (topic_of settings song)) (topic_out env) ;;
    match r with
    | RoomPutStateError message => log (LogTopicFailed message)
    | RoomPutStateResponse => log (LogTopicUpdated (topic_of settings song))
    end
  else ret tt.

(** Lines 126-129, the record logged when the branch is entered. *)
Definition announce (current_title : option string) (song : string)
  : log_record :=
  match current_title with
  | Some _ => LogMusicChanged song
  | None => LogInitialSong song
  end.

(** Lines 126-164, the branch of line 125. *)
Definition notify (settings : Settings) (room : string) (env : poll_env)
    (current_title : option string) (song : string) : M unit :=
  log (announce current_title song) ;;
  send_message settings room env song ;;
  put_topic settings room env song ;;
  set_title (Some song).

(** Lines 112-164, the body of the inner [try]. *)
Definition poll_body (settings : Settings) (room : string) (env : poll_env)
  : M unit :=
  response <- call (HttpGet (api_url (radio settings))) (get_out env) ;;
  raise_for_status response ;;
  data <- response_json response ;;
  st <- lift (model_validate data) ;;
  current_title <- get_title ;;
  if should_notify (song_title st) current_title then
    notify settings room env current_title (song_title st)
  else ret tt.

(** Lines 166-171, the two [except] clauses of the inner [try]. *)
Definition poll_handler (e : exn) : option (M unit) :=
  if is_HTTPError e then Some (log (LogHttpError e))
  else if is_Exception e then Some (log (LogUnexpectedError e))
  else None.

(** Lines 111-173, one turn of [while True]. *)
Definition poll_once (settings : Settings) (room : string) (env : poll_env)
  : M unit :=
  try_except (poll_body settings room env) poll_handler ;;
  call (Sleep (poll_interval (radio settings))) (sleep_out env).

(** Lines 110-173.  The loop has no exit of its own; it runs one turn for
    every entry of the script and is still running when the script ends. *)
Fixpoint poll_loop (settings : Settings) (room : string)
    (envs : list poll_env) : M unit :=
  match envs with
  | [] => pending
  | env :: rest => poll_once settings room env ;; poll_loop settings room rest
  end.

(** [s.startswith("#")]. *)
Definition starts_with_hash (s : string) : bool :=
  match s with
  | String c _ => Ascii.eqb c "#"
  | EmptyString => false
  end.

(** Lines 69-97, the body of the set-up [try].  [None] is a [return] from
    [main], [Some room] falls through to line 103 with the room to use. *)
Definition setup_body (settings : Settings) (env : setup_env)
  : M (option string) :=
  let matrix_room_id := room_id (matrix settings) in
  log LogLoggingIn ;;
  l <- call (ClientLogin (password (matrix settings))) (login_out env) ;;
  match l with
  | LoginError message =>
      log (LogLoginFailed message) ;;
      call ClientClose (close_out env) ;;
      ret None
  | LoginResponse =>
      log LogLoggedIn ;;
      resolved <-
        (if starts_with_hash matrix_room_id then
           log (LogResolving matrix_room_id) ;;
           r <- call (ClientRoomResolveAlias matrix_room_id) (resolve_out env) ;;
           match r with
           | RoomResolveAliasError message =>
               log (LogResolveFailed matrix_room_id message) ;;
               call ClientLogout (logout_out env) ;;
               call ClientClose (close_out env) ;;
               ret None
           | RoomResolveAliasResponse room =>
               log (LogResolved room) ;;
               ret (Some room)
           end
         else ret (Some matrix_room_id)) ;;
      match resolved with
      | None => ret None
      | Some room =>
          log (LogJoining room) ;;
          j <- call (ClientJoin room) (join_out env) ;;
          match j with
          | JoinError message =>
              log (LogJoinFailed room message) ;;
              call ClientLogout (logout_out env) ;;
              call ClientClose (close_out env) ;;
              ret None
          | JoinResponse => ret (Some room)
          end
      end
  end.

(** Lines 98-101. *)
Definition setup_handler (env : setup_env) (e : exn)
  : option (M (option string)) :=
  if is_Exception e then
    Some (log (LogSetupException e) ;;
          call ClientClose (handler_close_out env) ;;
          ret None)
  else None.

(** Lines 68-101, the set-up [try] with its handler. *)
Definition setup_phase (settings : Settings) (env : setup_env)
  : M (option string) :=
  try_except (setup_body settings env) (setup_handler env).

(** Lines 174-177. *)
Definition cleanup (env : setup_env) : M unit :=
  log LogClosing ;;
  call ClientLogout (logout_out env) ;;
  call ClientClose (close_out env).

(** [not all([...])] of line 58. *)
Definition missing_config (settings : Settings) : bool :=
  negb (truthy (Some (user (matrix settings)))
        && truthy (Some (password (matrix settings)))
        && truthy (Some (room_id (matrix settings)))
        && truthy (Some (api_url (radio settings)))).

(** Lines 105-177: the HTTP client is opened, the loop runs inside the
    [try] whose [finally] is the clean-up, and the HTTP client is closed on
    the way out. *)
Definition polling (settings : Settings) (w : world) (room : string)
  : M unit :=
  emit HttpOpen ;;
  try_finally
    (try_finally
       (log (LogStartPolling (api_url (radio settings))
                             (poll_interval (radio settings))) ;;
        poll_loop settings room (polls w))
       (cleanup (setup w)))
    (emit HttpClose).

(** [main], with [settings] for the value of [get_settings()]. *)
Definition main (settings : Settings) (w : world) : M unit :=
  if missing_config settings then log LogMissingConfig
  else
    log LogInitializing ;;
    emit (ClientNew (homeserver (matrix settings)) (user (matrix settings))) ;;
    r <- setup_phase settings (setup w) ;;
    match r with
    | None => ret tt
    | Some room =>
        set_title None ;;
        polling settings w room
    end.

(** A run of the program from its start. *)
Definition run_main (settings : Settings) (w : world)
  : list event * option string * res unit :=
  main settings w None.

(* ------------------------------------------------------------------ *)
(** ** Observations used by the statements *)

(** [getattr(st, name)] for the names of the fields. *)
Definition field (name : string) (st : RadioStatus) : option string :=
  if String.eqb name "encoder" then encoder st
  else if String.eqb name "filename" then filename st
  else if String.eqb name "initial_uri" then initial_uri st
  else if String.eqb name "language" then language st
  else if String.eqb name "rid" then rid st
  else if String.eqb name "status" then status st
  else if String.eqb name "temporary" then temporary st
  else if String.eqb name "title" then title st
  else if String.eqb name "vendor" then vendor st
  else None.


(** A value a [str | None] field accepts. *)
Definition str_or_none (v : option pyval) : bool :=
  match v with
  | None | Some PNone | Some (PStr _) => true
  | Some _ => false
  end.

(** The value a [str | None] field takes. *)
Definition as_field (v : option pyval) : option string :=
  match v with
  | Some (PStr s) => Some s
  | _ => None
  end.

(** Every field of the model finds an acceptable value in [d], or none. *)
Definition fields_valid (d : list (pyval * pyval)) : bool :=
  forallb (fun name => str_or_none (dict_get d (PStr name))) field_names.

(** The three components of a run. *)
Definition trace_of {A} (x : list event * option string * res A) : list event :=
  fst (fst x).

Definition state_of {A} (x : list event * option string * res A)
  : option string :=
  snd (fst x).

Definition res_of {A} (x : list event * option string * res A) : res A :=
  snd x.

(** The log record that opens the branch of line 125: one per dispatch. *)
Definition is_announce (ev : event) : bool :=
  match ev with
  | Log (LogMusicChanged _) | Log (LogInitialSong _) => true
  | _ => false
  end.

(** The two calls that notify the room. *)
Definition is_notify_call (ev : event) : bool :=
  match ev with
  | ClientRoomSend _ _ | ClientRoomPutState _ _ => true
  | _ => false
  end.

(** Number of dispatches in a trace. *)
Definition dispatches (t : list event) : nat :=
  List.length (filter is_announce t).

(** No dispatch and no call that notifies the room. *)
Definition quiet (t : list event) : bool :=
  forallb (fun ev => negb (is_announce ev || is_notify_call ev)) t.

(** Number of [client.close()] calls in a trace. *)
Definition is_close (ev : event) : bool :=
  match ev with
  | ClientClose => true
  | _ => false
  end.

Definition closes (t : list event) : nat := List.length (filter is_close t).

(** The wording of the announcement put aside: both records of lines 127 and
    129 become the same one. *)
Definition unword (ev : event) : event :=
  match ev with
  | Log (LogMusicChanged s) => Log (LogInitialSong s)
  | _ => ev
  end.

(** Lines 112-123 of one iteration: the title the poll arrives at, [None]
    when the fetch, the status check, the decoding or the validation
    raises. *)
Definition polled_title (env : poll_env) : option string :=
  match get_out env with
  | Err _ => None
  | Ok response =>
      if status_is_error response then None
      else match json response with
           | None => None
           | Some data =>
               match model_validate data with
               | Ok st => Some (song_title st)
               | Err _ => None
               end
           end
  end.

(** The previous title is unset or a non-empty string. *)
Definition title_ok (s : option string) : bool :=
  match s with
  | None => true
  | Some t => truthy (Some t)
  end.

Definition is_set (s : option string) : bool :=
  match s with
  | Some _ => true
  | None => false
  end.

(** A string ends with the character [c]. *)
Fixpoint ends_with (c : ascii) (s : string) : bool :=
  match s with
  | EmptyString => false
  | String a EmptyString => Ascii.eqb a c
  | String _ s' => ends_with c s'
  end.

(** The character [c] occurs in a string. *)
Fixpoint occurs (c : ascii) (s : string) : bool :=
  match s with
  | EmptyString => false
  | String a s' => Ascii.eqb a c || occurs c s'
  end.

(** The record pydantic builds from a dict all of whose fields are valid. *)
Definition status_of_dict (d : list (pyval * pyval)) : RadioStatus :=
  let get name := as_field (dict_get d (PStr name)) in
  mkRadioStatus (get "encoder") (get "filename") (get "initial_uri")
    (get "language") (get "rid") (get "status") (get "temporary")
    (get "title") (get "vendor").

(** Both calls of the branch return a response, of success or of error. *)
Definition notify_returns (env : poll_env) : bool :=
  match send_out env, topic_out env with
  | Ok _, Ok _ => true
  | _, _ => false
  end.

(** The fetch of the iteration returns a good status and the body [data]. *)
Definition fetches (data : pyval) (env : poll_env) : Prop :=
  get_out env = Ok (mkResponse false (Some data)).

(** The call was interrupted: it raised an exception that [except Exception]
    does not catch. *)
Definition interrupted {A} (out : result A) : bool :=
  match out with
  | Err e => negb (is_Exception e)
  | Ok _ => false
  end.

(** A record with a title and a file name, every other field absent. *)
Definition status_with (t f : option string) : RadioStatus :=
  mkRadioStatus None f None None None None None t None.

(** No [client.logout()] and no [client.close()] in a trace. *)
Definition no_teardown (t : list event) : bool :=
  forallb (fun ev => match ev with
                     | ClientLogout | ClientClose => false
                     | _ => true
                     end) t.

(* ------------------------------------------------------------------ *)
(** ** Sample settings and scripts *)

Definition sample_settings : Settings :=
  mkSettings
    (mkMatrixSettings "https://matrix.org" "@radiobot:matrix.org" "secret"
       "#radio:matrix.org" true true)
    (mkRadioSettings "Radio BS" "https://radio.example/stream"
       "https://radio.example/status" 15).

(** The payload [{"title": t}]. *)
Definition title_payload (t : string) : pyval :=
  PDict [(PStr "title", PStr t)].

(** A poll that fetches [data] and whose calls all succeed. *)
Definition good_poll (data : pyval) : poll_env :=
  mkPollEnv (Ok (mkResponse false (Some data)))
    (Ok RoomSendResponse) (Ok RoomPutStateResponse) (Ok tt).

(** A poll that fetches [data] and whose two calls to the room are answered
    with an error response. *)
Definition refused_poll (data : pyval) : poll_env :=
  mkPollEnv (Ok (mkResponse false (Some data)))
    (Ok (RoomSendError "M_FORBIDDEN")) (Ok (RoomPutStateError "M_FORBIDDEN"))
    (Ok tt).

(** A poll that fetches [data] and whose [room_send] raises. *)
Definition send_raises_poll (data : pyval) : poll_env :=
  mkPollEnv (Ok (mkResponse false (Some data)))
    (Err (Exn OtherException "LocalProtocolError")) (Ok RoomPutStateResponse)
    (Ok tt).

(** A poll that fetches [data] and whose [room_put_state] raises, after the
    message was sent. *)
Definition topic_raises_poll (data : pyval) : poll_env :=
  mkPollEnv (Ok (mkResponse false (Some data)))
    (Ok RoomSendResponse) (Err (Exn OtherException "LocalProtocolError"))
    (Ok tt).

(** A poll whose GET times out. *)
Definition timeout_poll : poll_env :=
  mkPollEnv (Err (Exn HTTPError "ConnectTimeout"))
    (Ok RoomSendResponse) (Ok RoomPutStateResponse) (Ok tt).

(** A poll that fetches [data] and is cancelled in its sleep. *)
Definition cancelled_poll (data : pyval) : poll_env :=
  mkPollEnv (Ok (mkResponse false (Some data)))
    (Ok RoomSendResponse) (Ok RoomPutStateResponse)
    (Err (Exn BaseExceptionOnly "CancelledError")).

(** A set-up in which every call succeeds. *)
Definition good_setup : setup_env :=
  mkSetupEnv (Ok LoginResponse)
    (Ok (RoomResolveAliasResponse "!abc:matrix.org")) (Ok JoinResponse)
    (Ok tt) (Ok tt) (Ok tt).

(** The same, but [logout] raises. *)
Definition logout_raises_setup : setup_env :=
  mkSetupEnv (Ok LoginResponse)
    (Ok (RoomResolveAliasResponse "!abc:matrix.org")) (Ok JoinResponse)
    (Err (Exn OtherException "ClientPayloadError")) (Ok tt) (Ok tt).

(** The alias does not resolve, and [logout] raises. *)
Definition unresolved_setup : setup_env :=
  mkSetupEnv (Ok LoginResponse)
    (Ok (RoomResolveAliasError "M_NOT_FOUND")) (Ok JoinResponse)
    (Err (Exn OtherException "ClientPayloadError")) (Ok tt) (Ok tt).

(** The login is cancelled. *)
Definition cancelled_setup : setup_env :=
  mkSetupEnv (Err (Exn BaseExceptionOnly "CancelledError"))
    (Ok (RoomResolveAliasResponse "!abc:matrix.org")) (Ok JoinResponse)
    (Ok tt) (Ok tt) (Ok tt).

(* ------------------------------------------------------------------ *)
(** ** The defaults of config.py *)

(** [MatrixSettings()] (config.py, lines 17-30). *)
Definition default_matrix_settings : MatrixSettings :=
  mkMatrixSettings "https://matrix.org" "" "" "" true false.

(** [RadioSettings()] (config.py, lines 33-39). *)
Definition default_radio_settings : RadioSettings :=
  mkRadioSettings "" "" "" 15.

(** [Settings()] when no source sets a field (config.py, lines 42-44). *)
Definition default_settings : Settings :=
  mkSettings default_matrix_settings default_radio_settings.

(* ------------------------------------------------------------------ *)
(** ** Further observations on traces *)

(** The room the program works on once the set-up is through: the room the
    alias resolved to when [room_id] is an alias, [room_id] itself when it
    is not. *)
Definition target_room (settings : Settings) (env : setup_env) : string :=
  if starts_with_hash (room_id (matrix settings)) then
    match resolve_out env with
    | Ok (RoomResolveAliasResponse room) => room
    | _ => room_id (matrix settings)
    end
  else room_id (matrix settings).

(** The room a call is made on, for the calls that name one. *)
Definition room_of (ev : event) : option string :=
  match ev with
  | ClientJoin room | ClientRoomSend room _ | ClientRoomPutState room _ =>
      Some room
  | _ => None
  end.

(** The call, if it names a room, names [room]. *)
Definition on_room (room : string) (ev : event) : bool :=
  match room_of ev with
  | Some r => String.eqb r room
  | None => true
  end.

Definition is_room_send (ev : event) : bool :=
  match ev with ClientRoomSend _ _ => true | _ => false end.

Definition is_put_state (ev : event) : bool :=
  match ev with ClientRoomPutState _ _ => true | _ => false end.

Definition is_http_get (ev : event) : bool :=
  match ev with HttpGet _ => true | _ => false end.

Definition is_http_open (ev : event) : bool :=
  match ev with HttpOpen => true | _ => false end.

Definition is_http_close (ev : event) : bool :=
  match ev with HttpClose => true | _ => false end.

Definition is_logout (ev : event) : bool :=
  match ev with ClientLogout => true | _ => false end.

(** Number of events of a trace that pass a test. *)
Definition count (p : event -> bool) (t : list event) : nat :=
  List.length (filter p t).

(** What one iteration may do: the GET of the configured URL, log records,
    the sleep of the configured interval and, when [song] is the title the
    iteration dispatches, the message and the topic for that title on
    [room], each only if the settings ask for it. *)
Definition iteration_event (settings : Settings) (room : string)
    (song : option string) (ev : event) : bool :=
  match ev with
  | Log _ => true
  | HttpGet url => String.eqb url (api_url (radio settings))
  | Sleep seconds => Z.eqb seconds (poll_interval (radio settings))
  | ClientRoomSend r body =>
      match song with
      | Some c =>
          send_messages (matrix settings) && String.eqb r room
          && String.eqb body (message_of c)
      | None => false
      end
  | ClientRoomPutState r topic =>
      match song with
      | Some c =>
          update_topic (matrix settings) && String.eqb r room
          && String.eqb topic (topic_of settings c)
      | None => false
      end
  | _ => false
  end.

(** The title an iteration dispatches from the state [s], if any. *)
Definition dispatched (env : poll_env) (s : option string) : option string :=
  match polled_title env with
  | Some c => if should_notify c s then Some c else None
  | None => None
  end.

(** The title of an announcement. *)
Definition song_of (ev : event) : option string :=
  match ev with
  | Log (LogMusicChanged c) | Log (LogInitialSong c) => Some c
  | _ => None
  end.

(** The titles announced in a trace, in order. *)
Fixpoint announced (t : list event) : list string :=
  match t with
  | [] => []
  | ev :: t' =>
      match song_of ev with
      | Some c => c :: announced t'
      | None => announced t'
      end
  end.

(** The titles that pass the test of line 125 one after the other, each
    becoming the previous title of the next test; a poll without a title
    ([None]) is passed over. *)
Fixpoint changes (previous : option string) (titles : list (option string))
  : list string :=
  match titles with
  | [] => []
  | None :: rest => changes previous rest
  | Some c :: rest =>
      if should_notify c previous then c :: changes (Some c) rest
      else changes previous rest
  end.

(** No call of the iteration is interrupted before the sleep. *)
Definition uninterrupted (env : poll_env) : bool :=
  negb (interrupted (get_out env)) && negb (interrupted (send_out env))
  && negb (interrupted (topic_out env)).

(** The list-of-pairs form of a mapping with string keys. *)
Definition pairs_of (kvs : list (string * pyval)) : list pyval :=
  map (fun kv => PList [PStr (fst kv); snd kv]) kvs.

(** The mapping itself. *)
Definition dict_of (kvs : list (string * pyval)) : list (pyval * pyval) :=
  map (fun kv => (PStr (fst kv), snd kv)) kvs.

(** What the loop may do, whatever the titles: as [iteration_event], the
    bodies of the message and of the topic left open. *)
Definition loop_event (settings : Settings) (room : string) (ev : event)
  : bool :=
  match ev with
  | Log _ | HttpGet _ | Sleep _ => true
  | ClientRoomSend r _ => send_messages (matrix settings) && String.eqb r room
  | ClientRoomPutState r _ =>
      update_topic (matrix settings) && String.eqb r room
  | _ => false
  end.

(** What the part of [main] after the set-up may do: the events of the
    loop, the opening and closing of the HTTP client, and the clean-up. *)
Definition polling_event (settings : Settings) (room : string) (ev : event)
  : bool :=
  match ev with
  | HttpOpen | HttpClose | ClientLogout | ClientClose => true
  | _ => loop_event settings room ev
  end.

(** The set-up goes through: the login succeeds, the alias, if [room_id]
    is one, resolves, and the join succeeds. *)
Definition setup_succeeds (settings : Settings) (env : setup_env) : bool :=
  match login_out env with
  | Ok LoginResponse =>
      (if starts_with_hash (room_id (matrix settings)) then
         match resolve_out env with
         | Ok (RoomResolveAliasResponse _) => true
         | _ => false
         end
       else true)
      && match join_out env with
         | Ok JoinResponse => true
         | _ => false
         end
  | _ => false
  end.

(** What the set-up may do: log, log in with the configured password,
    resolve the configured room, join the target room, log out, close. *)
Definition setup_event (settings : Settings) (env : setup_env) (ev : event)
  : bool :=
  match ev with
  | Log _ | ClientLogout | ClientClose => true
  | ClientLogin pw => String.eqb pw (password (matrix settings))
  | ClientRoomResolveAlias alias => String.eqb alias (room_id (matrix settings))
  | ClientJoin room => String.eqb room (target_room settings env)
  | _ => false
  end.

(** Settings that ask for messages only, the default of the two flags. *)
Definition messages_only_settings : Settings :=
  mkSettings
    (mkMatrixSettings "https://matrix.org" "@radiobot:matrix.org" "secret"
       "!abc:matrix.org" (send_messages default_matrix_settings)
       (update_topic default_matrix_settings))
    (mkRadioSettings "Radio BS" "https://radio.example/stream"
       "https://radio.example/status" (poll_interval default_radio_settings)).

(* ------------------------------------------------------------------ *)
(** * Properties *)

(** ** Dict keys *)

Section Keys.

Variable n : string.

(** Only the string [n] itself equals the key [n]. *)
Lemma key_eqb_str_r (k : pyval) : key_eqb k (PStr n) = true <-> k = PStr n.
Proof.
  destruct k as [| b | z | f | s | l | l]; simpl;
    try (split; discriminate).
  rewrite String.eqb_eq. split; [intros -> | intros [= ->]]; reflexivity.
Qed.

Lemma key_eqb_str_l (k : pyval) : key_eqb (PStr n) k = true <-> k = PStr n.
Proof.
  destruct k as [| b | z | f | s | l | l]; simpl;
    try (split; discriminate).
  rewrite String.eqb_eq. split; [intros -> | intros [= ->]]; reflexivity.
Qed.

(** Two keys that are equal agree on being the string [n]. *)
Lemma key_eqb_same_str (k k' : pyval) :
  key_eqb k' k = true -> key_eqb k' (PStr n) = key_eqb k (PStr n).
Proof.
  intros H.
  destruct (key_eqb k (PStr n)) eqn:E.
  - apply key_eqb_str_r in E. subst k.
    apply key_eqb_str_r in H. subst k'. apply key_eqb_str_r. reflexivity.
  - destruct (key_eqb k' (PStr n)) eqn:E'; [| reflexivity].
    apply key_eqb_str_r in E'. subst k'.
    apply key_eqb_str_l in H. subst k.
    rewrite <- E. symmetry. apply key_eqb_str_r. reflexivity.
Qed.

(** Reading the key [n] after a store. *)
Lemma dict_get_set (d : list (pyval * pyval)) (k v : pyval) :
  dict_get (dict_set d k v) (PStr n)
  = if key_eqb k (PStr n) then Some v else dict_get d (PStr n).
Proof.
  induction d as [| [k' v'] d IH]; simpl.
  - reflexivity.
  - destruct (key_eqb k' k) eqn:E; simpl.
    + rewrite (key_eqb_same_str _ _ E).
      destruct (key_eqb k (PStr n)); reflexivity.
    + rewrite IH.
      destruct (key_eqb k' (PStr n)) eqn:E'; [| reflexivity].
      destruct (key_eqb k (PStr n)) eqn:E''; [| reflexivity].
      apply key_eqb_str_r in E', E''. subst.
      simpl in E. rewrite String.eqb_refl in E. discriminate.
Qed.

End Keys.

(** ** The comprehension of [parse_list] *)

(** One step of the comprehension. *)
Lemma dict_of_pairs_cons (acc : list (pyval * pyval)) (item : pyval)
    (rest : list pyval) :
  dict_of_pairs acc (item :: rest)
  = match item with
    | PList [k; v] =>
        if hashable k then dict_of_pairs (dict_set acc k v) rest
        else Err TypeError
    | _ => dict_of_pairs acc rest
    end.
Proof. reflexivity. Qed.

(** An item the filter rejects leaves the dict as it is. *)
Lemma dict_of_pairs_skip (acc : list (pyval * pyval)) (item : pyval)
    (rest : list pyval) :
  is_pair item = false ->
  dict_of_pairs acc (item :: rest) = dict_of_pairs acc rest.
Proof.
  intros H. destruct item as [| | | | | [| a [| b [| c l]]] |];
    try reflexivity; discriminate.
Qed.

(** An item the filter keeps is a list of two elements. *)
Lemma is_pair_inv (item : pyval) :
  is_pair item = true -> exists k v, item = PList [k; v].
Proof.
  destruct item as [| | | | | [| a [| b [| c l]]] |]; try discriminate.
  intros _. exists a, b. reflexivity.
Qed.


(** No item passes the filter: the dict is the one the comprehension started
    with. *)
Lemma dict_of_pairs_no_pair (items : list pyval) :
  forall acc,
    forallb (fun i => negb (is_pair i)) items = true ->
    dict_of_pairs acc items = Ok acc.
Proof.
  induction items as [| item rest IH]; intros acc H; [reflexivity |].
  cbn [forallb] in H. apply andb_true_iff in H. destruct H as [H1 H2].
  rewrite dict_of_pairs_skip by (now apply negb_true_iff). now apply IH.
Qed.


(** ** Validation of the model *)

Lemma validate_field_spec (d : list (pyval * pyval)) (n : string) :
  validate_field d n
  = if str_or_none (dict_get d (PStr n))
    then Ok (as_field (dict_get d (PStr n)))
    else Err ValidationError.
Proof.
  unfold validate_field.
  destruct (dict_get d (PStr n)) as [[| b | z | f | s | l | l] |]; reflexivity.
Qed.

(** Validation succeeds exactly on the dicts whose nine fields are valid,
    and then reads every field off the dict. *)
Lemma validate_model_dict (d : list (pyval * pyval)) :
  validate_model (PDict d)
  = if fields_valid d then Ok (status_of_dict d) else Err ValidationError.
Proof.
  unfold validate_model, fields_valid, field_names, status_of_dict.
  rewrite !validate_field_spec. cbn [forallb].
  repeat match goal with
         | |- context [str_or_none ?x] =>
             destruct (str_or_none x); cbn [andb]; try reflexivity
         end.
Qed.

Lemma validate_model_not_dict (v : pyval) :
  is_dict v = false -> validate_model v = Err ValidationError.
Proof. destruct v; try reflexivity; discriminate. Qed.

(** Reading a field of the record built from a dict. *)
Lemma field_status_of_dict (d : list (pyval * pyval)) (n : string) :
  In n field_names ->
  field n (status_of_dict d) = as_field (dict_get d (PStr n)).
Proof.
  unfold field_names. cbn [In].
  intros H. repeat (destruct H as [<- | H]; [reflexivity |]). destruct H.
Qed.

(** [model_validate] on a list: the comprehension, then the validation. *)
Lemma model_validate_list (items : list pyval) :
  model_validate (PList items)
  = match dict_of_pairs [] items with
    | Ok d => validate_model (PDict d)
    | Err e => Err e
    end.
Proof.
  unfold model_validate, parse_list. destruct (dict_of_pairs [] items); reflexivity.
Qed.

(** ** C1 *)

(** C1, counterexample: for the plain number 42, [parse_list] hands the
    number on unchanged and the validation of the model raises
    [ValidationError]; no record is built. *)
Lemma model_validate_number_raises :
  model_validate (PInt 42) = Err ValidationError.
Proof. reflexivity. Qed.

(** A field that holds a number, and a pair whose first element is a list,
    make [model_validate] raise as well. *)
Lemma model_validate_bad_field_raises :
  model_validate (PDict [(PStr "title", PInt 5)]) = Err ValidationError.
Proof. reflexivity. Qed.

Lemma model_validate_unhashable_key_raises :
  model_validate (PList [PList [PList []; PStr "x"]]) = Err TypeError.
Proof. reflexivity. Qed.

(** C1, as amended: a payload that is neither a list nor a dict makes
    [RadioStatus.model_validate] raise [ValidationError]; a list none of
    whose items is a list of two elements (the empty list, pairs of another
    length, items that are no lists) gives the record with every field
    absent; and [model_validate] returns a record exactly when [parse_list]
    returns a dict in which every field of the model is missing, [None] or a
    string. *)
Theorem model_validate_shapes (data : pyval) :
  (is_list data = false -> is_dict data = false ->
   model_validate data = Err ValidationError)
  /\ (forall items,
        data = PList items ->
        forallb (fun i => negb (is_pair i)) items = true ->
        model_validate data = Ok empty_status)
  /\ ((exists st, model_validate data = Ok st)
      <-> (exists d, parse_list data = Ok (PDict d) /\ fields_valid d = true)).
Proof.
  split; [| split].
  - intros Hl Hd. unfold model_validate.
    destruct data; try reflexivity; discriminate.
  - intros items -> H. rewrite model_validate_list.
    rewrite dict_of_pairs_no_pair by exact H. reflexivity.
  - unfold model_validate. split.
    + intros [st H]. destruct (parse_list data) as [v | e]; [| discriminate].
      destruct (is_dict v) eqn:E.
      * destruct v; try discriminate E. exists items. split; [reflexivity |].
        rewrite validate_model_dict in H.
        destruct (fields_valid items); [reflexivity | discriminate].
      * rewrite validate_model_not_dict in H by exact E. discriminate.
    + intros (d & -> & H). rewrite validate_model_dict, H. eauto.
Qed.

(** C1, witness: a list holding one list of length 1 and one of length 3. *)
Lemma model_validate_shapes_witness :
  model_validate (PList [PList [PStr "title"];
                         PList [PStr "title"; PStr "A"; PStr "B"]])
  = Ok empty_status.
Proof.
  apply (proj1 (proj2 (model_validate_shapes
           (PList [PList [PStr "title"];
                   PList [PStr "title"; PStr "A"; PStr "B"]])))
           [PList [PStr "title"]; PList [PStr "title"; PStr "A"; PStr "B"]]);
    reflexivity.
Defined.

(** ** C10 *)



(** ** Splitting and replacing *)

Section Split.

Variable sep : ascii.

Lemma split_nonempty (s : string) : split sep s <> [].
Proof.
  destruct s as [| c s]; simpl; [discriminate |].
  destruct (Ascii.eqb c sep); [discriminate |].
  destruct (split sep s); discriminate.
Qed.

(** Without a separator the string is its only segment. *)
Lemma split_no_sep (s : string) : occurs sep s = false -> split sep s = [s].
Proof.
  induction s as [| c s IH]; simpl; [reflexivity |].
  intros H. apply orb_false_iff in H. destruct H as [Hc Hs].
  rewrite Hc, (IH Hs). reflexivity.
Qed.

(** With a separator there are at least two segments. *)
Lemma split_sep (s : string) :
  occurs sep s = true -> exists a b l, split sep s = a :: b :: l.
Proof.
  induction s as [| c s IH]; simpl; [discriminate |].
  destruct (Ascii.eqb c sep) eqn:Hc; simpl.
  - intros _. destruct (split sep s) as [| b l] eqn:E.
    + destruct (split_nonempty s E).
    + exists EmptyString, b, l. reflexivity.
  - intros H. destruct (IH H) as (a & b & l & ->).
    exists (String c a), b, l. reflexivity.
Qed.

(** The last segment, read from the front of the string. *)
Lemma last_split_cons (c : ascii) (s : string) :
  last (split sep (String c s)) EmptyString
  = if Ascii.eqb c sep || occurs sep s
    then last (split sep s) EmptyString
    else String c s.
Proof.
  cbn [split]. destruct (Ascii.eqb c sep) eqn:Hc; cbn [orb].
  - destruct (split sep s) as [| b l] eqn:E; [destruct (split_nonempty s E) |].
    reflexivity.
  - destruct (occurs sep s) eqn:Ho.
    + destruct (split_sep s Ho) as (a & b & l & ->). reflexivity.
    + rewrite (split_no_sep s Ho). reflexivity.
Qed.

(** The last segment holds no separator. *)
Lemma last_split_no_sep (s : string) :
  occurs sep (last (split sep s) EmptyString) = false.
Proof.
  induction s as [| c s IH]; [reflexivity |].
  rewrite last_split_cons.
  destruct (Ascii.eqb c sep) eqn:Hc; cbn [orb]; [exact IH |].
  destruct (occurs sep s) eqn:Ho; [exact IH |].
  simpl. rewrite Hc, Ho. reflexivity.
Qed.

Lemma ends_with_cons (c : ascii) (s : string) :
  ends_with sep (String c s)
  = match s with
    | EmptyString => Ascii.eqb c sep
    | _ => ends_with sep s
    end.
Proof. reflexivity. Qed.

(** The string is a directory part, empty or closed by a separator,
    followed by the last segment. *)
Lemma last_split_suffix (s : string) :
  exists dir,
    s = (dir ++ last (split sep s) EmptyString)%string
    /\ (dir = EmptyString \/ ends_with sep dir = true).
Proof.
  induction s as [| c s (dir & Hs & Hd)].
  - exists EmptyString. split; [reflexivity | left; reflexivity].
  - rewrite last_split_cons.
    destruct (Ascii.eqb c sep || occurs sep s) eqn:E.
    + exists (String c dir). split.
      * simpl. rewrite <- Hs. reflexivity.
      * right. rewrite ends_with_cons. destruct Hd as [-> | Hd].
        -- destruct (Ascii.eqb c sep) eqn:Hc; [reflexivity |].
           cbn [orb] in E. simpl in Hs.
           rewrite Hs, last_split_no_sep in E. discriminate.
        -- destruct dir; [discriminate | exact Hd].
    + exists EmptyString. split; [reflexivity | left; reflexivity].
Qed.

Lemma ends_with_occurs (s : string) :
  ends_with sep s = true -> occurs sep s = true.
Proof.
  induction s as [| c s IH]; [discriminate |].
  rewrite ends_with_cons. simpl. destruct s as [| c' s'].
  - intros ->. reflexivity.
  - intros H. rewrite (IH H). apply orb_true_r.
Qed.

Lemma ends_with_app (a b : string) :
  b <> EmptyString -> ends_with sep (a ++ b)%string = ends_with sep b.
Proof.
  intros Hb. induction a as [| c a IH]; [reflexivity |].
  cbn [append]. rewrite ends_with_cons, IH.
  destruct (a ++ b)%string eqn:E; [| reflexivity].
  destruct a; [simpl in E; contradiction | discriminate].
Qed.

(** The last segment is empty exactly for the empty string and for a
    string that ends with the separator. *)
Lemma last_split_empty (s : string) :
  last (split sep s) EmptyString = EmptyString
  <-> s = EmptyString \/ ends_with sep s = true.
Proof.
  destruct (last_split_suffix s) as (dir & Hs & Hd). split.
  - intros E. rewrite E in Hs.
    assert (s = dir) as ->.
    { rewrite Hs. clear. induction dir; simpl; congruence. }
    exact Hd.
  - intros [-> | He]; [reflexivity |].
    destruct (last (split sep s) EmptyString) as [| c l] eqn:E; [reflexivity |].
    rewrite Hs, ends_with_app in He by discriminate.
    apply ends_with_occurs in He.
    rewrite <- E, last_split_no_sep in He. discriminate.
Qed.

End Split.

Lemma replace_empty (old new : ascii) (s : string) :
  replace old new s = EmptyString <-> s = EmptyString.
Proof. destruct s; simpl; split; congruence. Qed.

Lemma replace_length (old new : ascii) (s : string) :
  String.length (replace old new s) = String.length s.
Proof. induction s; simpl; congruence. Qed.

(** Character by character, [old] becomes [new] and nothing else changes. *)
Lemma replace_get (old new : ascii) (s : string) (i : nat) :
  String.get i (replace old new s)
  = option_map (fun c => if Ascii.eqb c old then new else c) (String.get i s).
Proof.
  revert i. induction s as [| c s IH]; intros i; [reflexivity |].
  destruct i; simpl; [reflexivity | apply IH].
Qed.

(** ** One iteration of the loop *)

Ltac run_M :=
  cbv beta iota delta
    [poll_once poll_body notify send_message put_topic raise_for_status
     response_json try_except try_finally bind call emit lift log get_title
     set_title ret raise pending poll_handler is_HTTPError is_Exception
     exn_cls trace_of state_of res_of].

Section Iteration.

Variables (settings : Settings) (room : string) (env : poll_env).

Let url := api_url (radio settings).

(** The branch of line 125: it logs the announcement, makes the calls the
    settings ask for and stores the title if both calls return; the calls
    and their result depend on neither the previous title nor the
    wording. *)
Lemma notify_run (song : string) :
  exists t r,
    (forall cur s,
        notify settings room env cur song s
        = (Log (announce cur song) :: t,
           match r with Ret _ => Some song | _ => s end, r))
    /\ filter is_announce t = []
    /\ no_teardown t = true
    /\ r <> Pending
    /\ (notify_returns env = true -> r = Ret tt).
Proof.
  unfold notify_returns. run_M.
  destruct (send_messages (matrix settings)), (update_topic (matrix settings)),
    (send_out env) as [[| m1] | e1], (topic_out env) as [[| m2] | e2];
    cbn [app];
    lazymatch goal with
    | |- exists t r, (forall cur s, (_ :: ?T, _, ?R) = _) /\ _ =>
        exists T, R
    end;
    repeat split; try discriminate; reflexivity.
Qed.

(** A poll whose fetch, decoding or validation raises: the body raises
    after the GET and leaves the state alone. *)
Lemma poll_body_failed (s : option string) :
  polled_title env = None ->
  exists e, poll_body settings room env s = ([HttpGet url], s, Raise e).
Proof.
  unfold polled_title. run_M. subst url.
  destruct (get_out env) as [resp | e]; [| intros _; eexists; reflexivity].
  destruct (status_is_error resp); [intros _; eexists; reflexivity |].
  destruct (json resp) as [data |]; [| intros _; eexists; reflexivity].
  destruct (model_validate data) as [st | e];
    [discriminate | intros _; eexists; reflexivity].
Qed.

(** A poll that arrives at a title: the body is the GET followed by the
    branch, or by nothing. *)
Lemma poll_body_polled (song : string) (s : option string) :
  polled_title env = Some song ->
  poll_body settings room env s
  = if should_notify song s
    then let '(t, s', r) := notify settings room env s song s in
         (HttpGet url :: t, s', r)
    else ([HttpGet url], s, Ret tt).
Proof.
  unfold polled_title. subst url.
  cbv beta iota delta
    [poll_body raise_for_status response_json bind call emit lift get_title
     ret raise].
  destruct (get_out env) as [resp | e]; [| discriminate].
  destruct (status_is_error resp); [discriminate |].
  destruct (json resp) as [data |]; [| discriminate].
  destruct (model_validate data) as [st | e]; [| discriminate].
  intros [= <-]. cbn [app].
  destruct (should_notify (song_title st) s); [| reflexivity].
  destruct (notify settings room env s (song_title st) s) as [[t s'] r].
  destruct r; reflexivity.
Qed.

(** The handlers and the sleep around the body add nothing but a log
    record and the sleep, and leave the state alone. *)
Lemma poll_once_body (s : option string) :
  exists t' r',
    poll_once settings room env s
    = (trace_of (poll_body settings room env s) ++ t',
       state_of (poll_body settings room env s), r')
    /\ quiet t' = true
    /\ no_teardown t' = true
    /\ (res_of (poll_body settings room env s) <> Pending -> r' <> Pending).
Proof.
  cbv beta iota delta [poll_once try_except bind].
  destruct (poll_body settings room env s) as [[t s'] r].
  cbn [trace_of state_of res_of fst snd].
  destruct r as [[] | [[| |] n] |]; run_M; cbn [app];
    try (destruct (sleep_out env) as [[] | e]);
    rewrite <- ?app_assoc;
    lazymatch goal with
    | |- exists t' r', (_ ++ ?T, _, ?R) = _ /\ _ => exists T, R
    | |- exists t' r', (_, _, ?R) = _ /\ _ =>
        exists [], R; rewrite app_nil_r
    end;
    repeat split; try discriminate; try reflexivity; try congruence.
Qed.

End Iteration.

(** ** Counting in traces *)

Lemma dispatches_app (a b : list event) :
  dispatches (a ++ b) = dispatches a + dispatches b.
Proof. unfold dispatches. rewrite filter_app, length_app. reflexivity. Qed.

Lemma closes_app (a b : list event) : closes (a ++ b) = closes a + closes b.
Proof. unfold closes. rewrite filter_app, length_app. reflexivity. Qed.

Lemma quiet_app (a b : list event) : quiet (a ++ b) = quiet a && quiet b.
Proof. apply forallb_app. Qed.

Lemma no_teardown_app (a b : list event) :
  no_teardown (a ++ b) = no_teardown a && no_teardown b.
Proof. apply forallb_app. Qed.

Lemma quiet_dispatches (t : list event) : quiet t = true -> dispatches t = 0.
Proof.
  unfold dispatches. induction t as [| ev t IH]; [reflexivity |].
  cbn [quiet forallb filter]. intros H.
  apply andb_true_iff in H. destruct H as [H1 H2].
  apply negb_true_iff, orb_false_iff in H1. destruct H1 as [-> _].
  apply IH, H2.
Qed.

Lemma no_teardown_closes (t : list event) :
  no_teardown t = true -> closes t = 0.
Proof.
  unfold closes. induction t as [| ev t IH]; [reflexivity |].
  cbn [no_teardown forallb filter]. intros H.
  apply andb_true_iff in H. destruct H as [H1 H2].
  destruct ev; try discriminate H1; apply IH, H2.
Qed.

Lemma is_announce_announce (cur : option string) (song : string) :
  is_announce (Log (announce cur song)) = true.
Proof. destruct cur; reflexivity. Qed.

Lemma unword_announce (cur : option string) (song : string) :
  unword (Log (announce cur song)) = Log (LogInitialSong song).
Proof. destruct cur; reflexivity. Qed.

(** ** The detector *)

Lemma truthy_iff (c : string) : truthy (Some c) = true <-> c <> EmptyString.
Proof. destruct c; simpl; split; congruence. Qed.

Lemma title_neb_iff (c : string) (prev : option string) :
  title_neb c prev = true <-> prev <> Some c.
Proof.
  destruct prev as [p |]; simpl; [| split; congruence].
  rewrite negb_true_iff, String.eqb_neq. split; congruence.
Qed.

Lemma should_notify_iff (c : string) (prev : option string) :
  should_notify c prev = true <-> c <> EmptyString /\ prev <> Some c.
Proof.
  unfold should_notify. rewrite andb_true_iff, truthy_iff, title_neb_iff.
  reflexivity.
Qed.

Lemma should_notify_same (c : string) : should_notify c (Some c) = false.
Proof.
  unfold should_notify. simpl. rewrite String.eqb_refl. apply andb_false_r.
Qed.

(** ** What one iteration does to the state and to the room *)

Section Poll.

Variables (settings : Settings) (room : string) (env : poll_env).

(** The fetch or the parse fails: nothing is sent and the state stays. *)
Lemma poll_once_failed (s : option string) :
  polled_title env = None ->
  state_of (poll_once settings room env s) = s
  /\ quiet (trace_of (poll_once settings room env s)) = true.
Proof.
  intros H.
  destruct (poll_body_failed settings room env s H) as [e Hb].
  destruct (poll_once_body settings room env s) as (t' & r' & -> & Hq & _).
  rewrite Hb. cbn [trace_of state_of fst snd]. split; [reflexivity |].
  rewrite quiet_app, Hq. reflexivity.
Qed.

(** The title is the recorded one, or empty: nothing is sent and the
    state stays. *)
Lemma poll_once_unchanged (song : string) (s : option string) :
  polled_title env = Some song ->
  should_notify song s = false ->
  state_of (poll_once settings room env s) = s
  /\ quiet (trace_of (poll_once settings room env s)) = true.
Proof.
  intros H Hn.
  destruct (poll_once_body settings room env s) as (t' & r' & -> & Hq & _).
  rewrite (poll_body_polled settings room env song s H), Hn.
  cbn [trace_of state_of fst snd]. split; [reflexivity |].
  rewrite quiet_app, Hq. reflexivity.
Qed.

(** A change is detected: one dispatch; the state takes the new title if
    the calls return, and stays if one of them raises. *)
Lemma poll_once_changed (song : string) (s : option string) :
  polled_title env = Some song ->
  should_notify song s = true ->
  dispatches (trace_of (poll_once settings room env s)) = 1
  /\ (notify_returns env = true ->
      state_of (poll_once settings room env s) = Some song)
  /\ (state_of (poll_once settings room env s) = s
      \/ state_of (poll_once settings room env s) = Some song).
Proof.
  intros H Hn.
  destruct (poll_once_body settings room env s) as (t' & r' & -> & Hq & _).
  rewrite (poll_body_polled settings room env song s H), Hn.
  destruct (notify_run settings room env song) as (t & r & Hr & Ha & _ & _ & Hret).
  rewrite Hr. cbn [trace_of state_of fst snd].
  split; [| split].
  - rewrite dispatches_app, (quiet_dispatches _ Hq).
    unfold dispatches. cbn [filter].
    rewrite is_announce_announce, Ha. reflexivity.
  - intros Hok. rewrite (Hret Hok). reflexivity.
  - destruct r; auto.
Qed.

(** In every case the state stays or takes a title that passed the test
    of line 125. *)
Lemma poll_once_state (s : option string) :
  state_of (poll_once settings room env s) = s
  \/ exists song,
      should_notify song s = true
      /\ state_of (poll_once settings room env s) = Some song.
Proof.
  destruct (polled_title env) as [song |] eqn:H.
  - destruct (should_notify song s) eqn:Hn.
    + destruct (poll_once_changed song s H Hn) as (_ & _ & [Hs | Hs]);
        [left; exact Hs | right; exists song; auto].
    + left. apply (poll_once_unchanged song s H Hn).
  - left. apply (poll_once_failed s H).
Qed.

(** The iteration never logs out of the Matrix client nor closes it, and
    it ends by falling through or by raising. *)
Lemma poll_once_no_teardown (s : option string) :
  no_teardown (trace_of (poll_once settings room env s)) = true
  /\ res_of (poll_once settings room env s) <> Pending.
Proof.
  destruct (poll_once_body settings room env s) as (t' & r' & -> & _ & Ht & Hp).
  cbn [trace_of res_of fst snd]. rewrite no_teardown_app, Ht, andb_true_r.
  destruct (polled_title env) as [song |] eqn:H.
  - rewrite (poll_body_polled settings room env song s H) in *.
    destruct (should_notify song s).
    + destruct (notify_run settings room env song) as (t & r & Hr & _ & Hn & Hne & _).
      rewrite Hr in *. cbn [trace_of res_of fst snd] in *.
      split; [| auto]. cbn [no_teardown forallb]. destruct s; exact Hn.
    + cbn [trace_of res_of fst snd] in *. split; [reflexivity |].
      apply Hp. discriminate.
  - destruct (poll_body_failed settings room env s H) as [e Hb].
    rewrite Hb in *. cbn [trace_of res_of fst snd] in *.
    split; [reflexivity |]. apply Hp. discriminate.
Qed.

(** Two runs of the iteration that both detect a change differ in the
    wording of the announcement only. *)
Lemma poll_once_wording (song : string) (s1 s2 : option string) :
  polled_title env = Some song ->
  should_notify song s1 = true ->
  should_notify song s2 = true ->
  map unword (trace_of (poll_once settings room env s1))
  = map unword (trace_of (poll_once settings room env s2))
  /\ res_of (poll_once settings room env s1)
     = res_of (poll_once settings room env s2).
Proof.
  intros H H1 H2.
  cbv beta iota delta [poll_once try_except bind].
  rewrite !(poll_body_polled settings room env song _ H), H1, H2.
  destruct (notify_run settings room env song) as (t & r & Hr & _).
  rewrite !Hr.
  destruct r as [[] | [[| |] n] |]; run_M;
    try (destruct (sleep_out env) as [[] | e]);
    cbn [fst snd]; rewrite ?map_app; cbn [map];
    rewrite !unword_announce; split; reflexivity.
Qed.

End Poll.

(** ** The loop *)

Section Loop.

Variables (settings : Settings) (room : string).

Lemma poll_loop_cons (env : poll_env) (rest : list poll_env)
    (s : option string) :
  poll_loop settings room (env :: rest) s
  = match poll_once settings room env s with
    | (t, s', Ret _) =>
        let '(t', s'', r) := poll_loop settings room rest s' in
        (t ++ t', s'', r)
    | (t, s', Raise e) => (t, s', Raise e)
    | (t, s', Pending) => (t, s', Pending)
    end.
Proof. reflexivity. Qed.

(** The loop never falls through: the script ends or an exception
    escapes. *)
Lemma poll_loop_no_ret (envs : list poll_env) :
  forall s u, res_of (poll_loop settings room envs s) <> Ret u.
Proof.
  induction envs as [| env rest IH]; intros s u; [discriminate |].
  rewrite poll_loop_cons.
  destruct (poll_once settings room env s) as [[t s'] [[] | e |]];
    try discriminate.
  specialize (IH s' u).
  destruct (poll_loop settings room rest s') as [[t' s''] r]. exact IH.
Qed.

(** A longer script continues the run where the shorter one stopped. *)
Lemma poll_loop_app (a b : list poll_env) :
  forall s,
    poll_loop settings room (a ++ b) s
    = match poll_loop settings room a s with
      | (t, s', Pending) =>
          let '(t', s'', r) := poll_loop settings room b s' in
          (t ++ t', s'', r)
      | other => other
      end.
Proof.
  induction a as [| env rest IH]; intros s.
  - cbn [app poll_loop]. unfold pending.
    destruct (poll_loop settings room b s) as [[t' s''] r]. reflexivity.
  - cbn [app]. rewrite !poll_loop_cons.
    pose proof (proj2 (poll_once_no_teardown settings room env s)) as Hp.
    destruct (poll_once settings room env s) as [[t s'] [[] | e |]];
      cbn [res_of snd] in Hp; try reflexivity.
    + rewrite IH.
      destruct (poll_loop settings room rest s') as [[t1 s1] [u | e |]];
        try reflexivity.
      destruct (poll_loop settings room b s1) as [[t2 s2] r2].
      rewrite app_assoc. reflexivity.
    + destruct (Hp eq_refl).
Qed.

(** The state at any point of the loop is unset or a non-empty title, and
    a title that is set stays set. *)
Lemma poll_loop_title_ok (envs : list poll_env) :
  forall s,
    title_ok s = true ->
    title_ok (state_of (poll_loop settings room envs s)) = true
    /\ (is_set s = true ->
        is_set (state_of (poll_loop settings room envs s)) = true).
Proof.
  induction envs as [| env rest IH]; intros s Hs; [split; auto |].
  rewrite poll_loop_cons.
  assert (title_ok (state_of (poll_once settings room env s)) = true
          /\ (is_set s = true ->
              is_set (state_of (poll_once settings room env s)) = true))
    as [Hok Hset].
  { destruct (poll_once_state settings room env s) as [-> | (song & Hn & ->)];
      [split; auto |].
    split; [| reflexivity].
    unfold should_notify in Hn. apply andb_true_iff in Hn. apply Hn. }
  destruct (poll_once settings room env s) as [[t s'] [[] | e |]];
    cbn [state_of fst snd] in *; try (split; assumption).
  destruct (IH s' Hok) as [IH1 IH2].
  destruct (poll_loop settings room rest s') as [[t' s''] r].
  cbn [state_of fst snd] in *. split; auto.
Qed.

(** Polls that fail, or that arrive at a title the test of line 125
    rejects, send nothing and leave the state alone. *)
Lemma poll_loop_quiet (envs : list poll_env) (s : option string) :
  Forall (fun env =>
            match polled_title env with
            | Some song => should_notify song s = false
            | None => True
            end) envs ->
  quiet (trace_of (poll_loop settings room envs s)) = true
  /\ state_of (poll_loop settings room envs s) = s.
Proof.
  induction 1 as [| env rest Henv _ IH]; [split; reflexivity |].
  rewrite poll_loop_cons.
  assert (state_of (poll_once settings room env s) = s
          /\ quiet (trace_of (poll_once settings room env s)) = true)
    as [Hs Hq].
  { destruct (polled_title env) as [song |] eqn:E.
    - apply (poll_once_unchanged settings room env song s E Henv).
    - apply (poll_once_failed settings room env s E). }
  destruct (poll_once settings room env s) as [[t s'] [[] | e |]];
    cbn [trace_of state_of fst snd] in *; subst s';
    [| split; [exact Hq | reflexivity] ..].
  destruct IH as [IH1 IH2].
  destruct (poll_loop settings room rest s) as [[t' s''] r].
  cbn [trace_of state_of fst snd] in *. rewrite quiet_app, Hq, IH1. auto.
Qed.

(** The loop logs out of nothing and closes nothing. *)
Lemma poll_loop_no_teardown (envs : list poll_env) :
  forall s, no_teardown (trace_of (poll_loop settings room envs s)) = true.
Proof.
  induction envs as [| env rest IH]; intros s; [reflexivity |].
  rewrite poll_loop_cons.
  pose proof (proj1 (poll_once_no_teardown settings room env s)) as Ht.
  destruct (poll_once settings room env s) as [[t s'] [[] | e |]];
    cbn [trace_of fst snd] in *; try assumption.
  specialize (IH s').
  destruct (poll_loop settings room rest s') as [[t' s''] r].
  cbn [trace_of fst snd] in *. rewrite no_teardown_app, Ht, IH. reflexivity.
Qed.

(** A poll that fetches [data] arrives at the title of the validated
    record. *)
Lemma fetches_polled_title (data : pyval) (env : poll_env) :
  fetches data env ->
  polled_title env
  = match model_validate data with
    | Ok st => Some (song_title st)
    | Err _ => None
    end.
Proof. unfold fetches, polled_title. intros ->. reflexivity. Qed.

End Loop.

(* ------------------------------------------------------------------ *)
(** * The claims about the title *)

(** ** C2 *)

(** C2, counterexample: with no title and the file name ["music/"], the
    last segment of the path is empty and so is the derived title. *)
Lemma song_title_empty_example :
  song_title (status_with None (Some "music/")) = EmptyString.
Proof. reflexivity. Qed.

(** C2, as amended: the derived title is the empty string exactly when the
    title is absent or empty and the file name ends with '/'; for every
    other record it is a non-empty string. *)
Theorem song_title_empty_iff (st : RadioStatus) :
  song_title st = EmptyString
  <-> truthy (title st) = false
      /\ exists f, filename st = Some f /\ ends_with "/" f = true.
Proof.
  unfold song_title.
  destruct (title st) as [[| c t] |]; cbn [truthy];
    try (split; [discriminate | intros [H _]; discriminate]).
  all: destruct (filename st) as [[| a f] |].
  all: try (split; [discriminate | intros (_ & f' & [= <-] & H); discriminate]).
  all: try (split; [discriminate | intros (_ & f' & [=] & _)]).
  all: rewrite replace_empty, last_split_empty; split.
  all: try (intros [H | H]; [discriminate |];
            split; [reflexivity | eexists; split; [reflexivity | exact H]]).
  all: intros (_ & f' & [= <-] & H); right; exact H.
Qed.

(** ** C6 *)

(** C6, counterexample: a title that is present but empty is not returned;
    the title is derived from the file name. *)
Lemma song_title_empty_title_example :
  song_title (status_with (Some "") (Some "/mnt/music/My_Song.mp3"))
  = "My Song.mp3".
Proof. reflexivity. Qed.

(** C6, as amended: a title that is present and not empty is returned
    unchanged; when the title is absent or empty and the file name is not
    empty, the result is the last segment of the file name (what follows the
    last '/'), every '_' turned into a space; when the file name is absent
    or empty too, the result is "Unknown Song".  On the three inputs of the
    specification the results are "Song A", "My Song.mp3" and
    "Unknown Song". *)
Theorem song_title_derivation :
  (forall st : RadioStatus,
      (truthy (title st) = true -> Some (song_title st) = title st)
      /\ (truthy (title st) = false -> truthy (filename st) = true ->
          exists dir seg,
            filename st = Some (dir ++ seg)%string
            /\ occurs "/" seg = false
            /\ (dir = EmptyString \/ ends_with "/" dir = true)
            /\ String.length (song_title st) = String.length seg
            /\ forall i,
                String.get i (song_title st)
                = option_map (fun c => if Ascii.eqb c "_" then " "%char else c)
                    (String.get i seg))
      /\ (truthy (title st) = false -> truthy (filename st) = false ->
          song_title st = "Unknown Song"))
  /\ song_title (status_with (Some "Song A") None) = "Song A"
  /\ song_title (status_with None (Some "/mnt/music/My_Song.mp3"))
     = "My Song.mp3"
  /\ song_title (status_with None None) = "Unknown Song".
Proof.
  split; [| repeat split].
  intros st. unfold song_title.
  destruct (title st) as [[| c t] |]; cbn [truthy].
  2: { repeat split; discriminate. }
  all: split; [discriminate |].
  all: destruct (filename st) as [[| a f] |]; cbn [truthy].
  all: split; try discriminate; try reflexivity; intros _ _.
  all: destruct (last_split_suffix "/" (String a f)) as (dir & Hs & Hd).
  all: exists dir, (last (split "/" (String a f)) EmptyString).
  all: repeat split;
    [ rewrite <- Hs; reflexivity | apply last_split_no_sep | exact Hd
    | apply replace_length | intros i; apply replace_get ].
Qed.

(* ------------------------------------------------------------------ *)
(** * The claims about the detector and the loop *)

(** ** C5 *)

(** C5: the test of line 125 is true exactly when the candidate is not
    empty and differs from the previous title; it is false for the previous
    title itself and true for any non-empty candidate on the first poll; and
    an iteration that detects a change from a previous title makes the same
    calls, with the same result, as the one that detects it from the unset
    state: the two differ in the record logged, "Initial song" or "Music
    changed". *)
Theorem should_notify_decision (candidate : string) (previous : option string) :
  (should_notify candidate previous = true
   <-> candidate <> EmptyString /\ previous <> Some candidate)
  /\ should_notify candidate (Some candidate) = false
  /\ (candidate <> EmptyString -> should_notify candidate None = true)
  /\ (forall settings room env p,
         polled_title env = Some candidate ->
         should_notify candidate (Some p) = true ->
         map unword (trace_of (poll_once settings room env None))
         = map unword (trace_of (poll_once settings room env (Some p)))
         /\ res_of (poll_once settings room env None)
            = res_of (poll_once settings room env (Some p))
         /\ announce None candidate = LogInitialSong candidate
         /\ announce (Some p) candidate = LogMusicChanged candidate).
Proof.
  split; [apply should_notify_iff |].
  split; [apply should_notify_same |].
  split.
  - intros H. apply should_notify_iff. split; [exact H | discriminate].
  - intros settings room env p Hp Hn.
    assert (should_notify candidate None = true) as Hi.
    { apply should_notify_iff. apply should_notify_iff in Hn.
      split; [apply Hn | discriminate]. }
    destruct (poll_once_wording settings room env candidate None (Some p)
                Hp Hi Hn) as [Ht Hr].
    auto.
Qed.

(** C5, witness: "Track 2" is detected once on the first poll and once
    after "Track 1"; only the log record differs. *)
Lemma should_notify_decision_witness :
  map unword (trace_of (poll_once sample_settings "!abc:matrix.org"
                          (good_poll (title_payload "Track 2")) None))
  = map unword (trace_of (poll_once sample_settings "!abc:matrix.org"
                            (good_poll (title_payload "Track 2"))
                            (Some "Track 1")))
  /\ res_of (poll_once sample_settings "!abc:matrix.org"
               (good_poll (title_payload "Track 2")) None)
     = res_of (poll_once sample_settings "!abc:matrix.org"
                 (good_poll (title_payload "Track 2")) (Some "Track 1"))
  /\ announce None "Track 2" = LogInitialSong "Track 2"
  /\ announce (Some "Track 1") "Track 2" = LogMusicChanged "Track 2".
Proof.
  destruct (should_notify_decision "Track 2" (Some "Track 1"))
    as (_ & _ & _ & H).
  apply (H sample_settings "!abc:matrix.org"
           (good_poll (title_payload "Track 2")) "Track 1"); reflexivity.
Defined.


(** ** C3 *)

(** C3, counterexample: "Track 2" follows "Track 1", the message is sent
    and [room_put_state] then fails by raising.  The exception leaves the
    [try] before line 164, the previous title stays "Track 1", and the next
    poll that returns "Track 2" announces it and sends the message again:
    two dispatches and two messages for one change. *)
Lemma send_exception_reannounces :
  state_of (poll_once sample_settings "!abc:matrix.org"
              (topic_raises_poll (title_payload "Track 2")) (Some "Track 1"))
  = Some "Track 1"
  /\ dispatches
       (trace_of (poll_loop sample_settings "!abc:matrix.org"
                    [topic_raises_poll (title_payload "Track 2");
                     good_poll (title_payload "Track 2")] (Some "Track 1")))
     = 2
  /\ count is_room_send
       (trace_of (poll_loop sample_settings "!abc:matrix.org"
                    [topic_raises_poll (title_payload "Track 2");
                     good_poll (title_payload "Track 2")] (Some "Track 1")))
     = 2.
Proof. repeat split. Qed.

(** C3, as amended: when an iteration detects a change and the two calls
    that notify the room return, with a response of success or of error,
    the iteration dispatches once and the previous title becomes the new
    title; the next poll that arrives at the same title sends nothing and
    keeps the state. *)
Theorem send_failure_advances_state (settings : Settings) (room : string)
    (env next : poll_env) (previous : option string) (song : string)
    (sent : send_res) (put : topic_res) :
  polled_title env = Some song ->
  should_notify song previous = true ->
  send_out env = Ok sent ->
  topic_out env = Ok put ->
  polled_title next = Some song ->
  dispatches (trace_of (poll_once settings room env previous)) = 1
  /\ state_of (poll_once settings room env previous) = Some song
  /\ quiet (trace_of (poll_once settings room next
                        (state_of (poll_once settings room env previous))))
     = true
  /\ state_of (poll_once settings room next
                 (state_of (poll_once settings room env previous)))
     = Some song.
Proof.
  intros Hp Hn Hs Ht Hnext.
  assert (notify_returns env = true) as Hr.
  { unfold notify_returns. rewrite Hs, Ht. reflexivity. }
  destruct (poll_once_changed settings room env song previous Hp Hn)
    as (Hd & Hst & _).
  rewrite (Hst Hr).
  destruct (poll_once_unchanged settings room next song (Some song) Hnext
              (should_notify_same song)) as [Hs' Hq].
  auto.
Qed.

(** C3, witness: "Track 2" follows "Track 1" and both calls are answered
    with an error response; the next poll arrives at "Track 2" again. *)
Lemma send_failure_advances_state_witness :
  dispatches (trace_of (poll_once sample_settings "!abc:matrix.org"
                          (refused_poll (title_payload "Track 2"))
                          (Some "Track 1"))) = 1
  /\ state_of (poll_once sample_settings "!abc:matrix.org"
                 (refused_poll (title_payload "Track 2")) (Some "Track 1"))
     = Some "Track 2"
  /\ quiet (trace_of
              (poll_once sample_settings "!abc:matrix.org"
                 (good_poll (title_payload "Track 2"))
                 (state_of
                    (poll_once sample_settings "!abc:matrix.org"
                       (refused_poll (title_payload "Track 2"))
                       (Some "Track 1"))))) = true
  /\ state_of
       (poll_once sample_settings "!abc:matrix.org"
          (good_poll (title_payload "Track 2"))
          (state_of
             (poll_once sample_settings "!abc:matrix.org"
                (refused_poll (title_payload "Track 2")) (Some "Track 1"))))
     = Some "Track 2".
Proof.
  apply (send_failure_advances_state sample_settings "!abc:matrix.org"
           (refused_poll (title_payload "Track 2"))
           (good_poll (title_payload "Track 2")) (Some "Track 1") "Track 2"
           (RoomSendError "M_FORBIDDEN") (RoomPutStateError "M_FORBIDDEN"));
    reflexivity.
Defined.

(** When [room_send] raises instead, the assignment of line 164 is not
    reached: the state stays and the next poll announces the title again. *)
Lemma send_exception_keeps_state :
  state_of (poll_once sample_settings "!abc:matrix.org"
              (send_raises_poll (title_payload "Track 2")) (Some "Track 1"))
  = Some "Track 1".
Proof. reflexivity. Qed.


(** ** C7 *)

(** C7: an iteration whose fetch, status check, decoding or validation
    fails sends nothing and leaves the previous title as it was; when a
    title was recorded and the poll after the failure arrives at that
    title, the two polls together send nothing. *)
Theorem fetch_failure_keeps_state (settings : Settings) (room : string)
    (env next : poll_env) (previous : option string) :
  polled_title env = None ->
  state_of (poll_once settings room env previous) = previous
  /\ quiet (trace_of (poll_once settings room env previous)) = true
  /\ (polled_title next = previous ->
      quiet (trace_of (poll_loop settings room [env; next] previous)) = true
      /\ state_of (poll_loop settings room [env; next] previous) = previous).
Proof.
  intros H.
  destruct (poll_once_failed settings room env previous H) as [Hs Hq].
  split; [exact Hs |]. split; [exact Hq |].
  intros Hnext. apply poll_loop_quiet.
  repeat constructor.
  - rewrite H. exact I.
  - rewrite Hnext. destruct previous as [p |]; [| exact I].
    apply should_notify_same.
Qed.

(** C7, witness: "Track 1" is recorded, a GET times out, and the next poll
    returns "Track 1" again. *)
Lemma fetch_failure_keeps_state_witness :
  state_of (poll_once sample_settings "!abc:matrix.org" timeout_poll
              (Some "Track 1")) = Some "Track 1"
  /\ quiet (trace_of (poll_once sample_settings "!abc:matrix.org" timeout_poll
                        (Some "Track 1"))) = true
  /\ quiet (trace_of (poll_loop sample_settings "!abc:matrix.org"
                        [timeout_poll; good_poll (title_payload "Track 1")]
                        (Some "Track 1"))) = true
  /\ state_of (poll_loop sample_settings "!abc:matrix.org"
                 [timeout_poll; good_poll (title_payload "Track 1")]
                 (Some "Track 1")) = Some "Track 1".
Proof.
  destruct (fetch_failure_keeps_state sample_settings "!abc:matrix.org"
              timeout_poll (good_poll (title_payload "Track 1"))
              (Some "Track 1") eq_refl) as (H1 & H2 & H3).
  destruct (H3 eq_refl) as [H4 H5]. auto.
Defined.


(** ** C8 *)

(** C8, counterexample: two polls that both return [{"filename": "music/"}]
    dispatch nothing, the derived title being empty; and two polls that both
    return [{"title": "Track 1"}] dispatch twice when [room_send] raises in
    the first one, the state not having advanced. *)
Lemma same_payload_not_once :
  dispatches
    (trace_of (poll_loop sample_settings "!abc:matrix.org"
                 [good_poll (PDict [(PStr "filename", PStr "music/")]);
                  good_poll (PDict [(PStr "filename", PStr "music/")])] None))
  = 0
  /\ dispatches
       (trace_of (poll_loop sample_settings "!abc:matrix.org"
                    [send_raises_poll (title_payload "Track 1");
                     good_poll (title_payload "Track 1")] None))
     = 2.
Proof. split; reflexivity. Qed.

(** C8, as amended: from the unset state, a non-empty sequence of polls
    that all fetch the same payload, and whose calls to the room all return,
    dispatches exactly once when the payload validates to a record with a
    non-empty derived title, and never when the payload fails validation or
    the derived title is empty. *)
Theorem same_payload_dispatches (settings : Settings) (room : string)
    (data : pyval) (envs : list poll_env) :
  envs <> [] ->
  Forall (fun env => fetches data env /\ notify_returns env = true) envs ->
  dispatches (trace_of (poll_loop settings room envs None))
  = match model_validate data with
    | Ok st => if truthy (Some (song_title st)) then 1 else 0
    | Err _ => 0
    end.
Proof.
  intros Hne Hall.
  assert (Forall (fun env =>
                    polled_title env
                    = match model_validate data with
                      | Ok st => Some (song_title st)
                      | Err _ => None
                      end) envs) as Hp.
  { eapply Forall_impl; [| exact Hall].
    intros env [Hf _]. apply fetches_polled_title, Hf. }
  assert (forall s,
             match model_validate data with
             | Ok st => should_notify (song_title st) s = false
             | Err _ => True
             end ->
             forall l, Forall (fun env =>
                                 polled_title env
                                 = match model_validate data with
                                   | Ok st => Some (song_title st)
                                   | Err _ => None
                                   end) l ->
             dispatches (trace_of (poll_loop settings room l s)) = 0) as Hq.
  { intros s Hs l Hl. apply quiet_dispatches, poll_loop_quiet.
    eapply Forall_impl; [| exact Hl].
    intros env ->. destruct (model_validate data); [exact Hs | exact I]. }
  destruct (model_validate data) as [st | e] eqn:Hm.
  - destruct (truthy (Some (song_title st))) eqn:Ht.
    + destruct envs as [| env rest]; [contradiction |].
      inversion Hall as [| ? ? [_ Hr] _]; subst.
      inversion Hp as [| ? ? Hpe Hprest]; subst.
      assert (should_notify (song_title st) None = true) as Hn.
      { unfold should_notify. rewrite Ht. reflexivity. }
      destruct (poll_once_changed settings room env _ None Hpe Hn)
        as (Hd & Hst & _).
      specialize (Hst Hr). rewrite poll_loop_cons.
      destruct (poll_once settings room env None) as [[t s'] [[] | e |]];
        cbn [trace_of state_of fst snd] in *; try exact Hd.
      subst s'.
      specialize (Hq (Some (song_title st)) (should_notify_same _) rest Hprest).
      destruct (poll_loop settings room rest (Some (song_title st)))
        as [[t' s''] r].
      cbn [trace_of fst snd] in *. rewrite dispatches_app, Hd, Hq. reflexivity.
    + apply Hq; [| exact Hp]. unfold should_notify. rewrite Ht. reflexivity.
  - apply Hq; [exact I | exact Hp].
Qed.

(** C8, witness: three polls return [{"title": "Track 1"}]. *)
Lemma same_payload_dispatches_witness :
  dispatches
    (trace_of (poll_loop sample_settings "!abc:matrix.org"
                 [good_poll (title_payload "Track 1");
                  refused_poll (title_payload "Track 1");
                  good_poll (title_payload "Track 1")] None))
  = 1.
Proof.
  apply (same_payload_dispatches sample_settings "!abc:matrix.org"
           (title_payload "Track 1")
           [good_poll (title_payload "Track 1");
            refused_poll (title_payload "Track 1");
            good_poll (title_payload "Track 1")]).
  - discriminate.
  - repeat constructor.
Defined.


(** ** C9 *)

(** C9: at every point of the loop, reached from the unset state of line
    103, the previous title is [None] or a non-empty string; and once it is
    a string it is a string at every later point. *)
Theorem current_title_invariant (settings : Settings) (room : string)
    (before after : list poll_env) :
  title_ok (state_of (poll_loop settings room before None)) = true
  /\ (is_set (state_of (poll_loop settings room before None)) = true ->
      is_set (state_of (poll_loop settings room (before ++ after) None))
      = true).
Proof.
  destruct (poll_loop_title_ok settings room before None eq_refl) as [Hok _].
  split; [exact Hok |].
  rewrite poll_loop_app.
  destruct (poll_loop settings room before None) as [[t s] [u | e |]];
    cbn [state_of fst snd] in *; try (intros H; exact H).
  intros Hset.
  destruct (poll_loop_title_ok settings room after s Hok) as [_ H].
  specialize (H Hset).
  destruct (poll_loop settings room after s) as [[t' s'] r]. exact H.
Qed.

(** C9, witness: the title set by the first poll is still set after a
    failed fetch and a poll that arrives at an empty title. *)
Lemma current_title_invariant_witness :
  is_set (state_of
            (poll_loop sample_settings "!abc:matrix.org"
               ([good_poll (title_payload "Track 1")]
                ++ [timeout_poll;
                    good_poll (PDict [(PStr "filename", PStr "music/")])])
               None))
  = true.
Proof.
  apply (proj2 (current_title_invariant sample_settings "!abc:matrix.org"
                  [good_poll (title_payload "Track 1")]
                  [timeout_poll;
                   good_poll (PDict [(PStr "filename", PStr "music/")])])).
  reflexivity.
Defined.


(** ** The scenario of the specification *)

(** "Track 1", "Track 1" again, then "Track 2": the first poll announces the
    initial song, the second nothing, the third the change. *)
Lemma happy_path_example :
  filter is_announce
    (trace_of (poll_loop sample_settings "!abc:matrix.org"
                 [good_poll (title_payload "Track 1");
                  good_poll (title_payload "Track 1");
                  good_poll (title_payload "Track 2")] None))
  = [Log (LogInitialSong "Track 1"); Log (LogMusicChanged "Track 2")].
Proof. reflexivity. Qed.

(* ------------------------------------------------------------------ *)
(** * Closing the Matrix client *)

Section Teardown.

Variables (settings : Settings) (w : world).

(** The set-up, when [close] returns and no call is interrupted: it ends
    with a [return] after exactly one [close], or it falls through to the
    loop without a [logout] or a [close]. *)
Lemma setup_phase_closes (env : setup_env) (s : option string) :
  close_out env = Ok tt ->
  handler_close_out env = Ok tt ->
  interrupted (login_out env) = false ->
  interrupted (resolve_out env) = false ->
  interrupted (join_out env) = false ->
  interrupted (logout_out env) = false ->
  match res_of (setup_phase settings env s) with
  | Ret None => closes (trace_of (setup_phase settings env s)) = 1
  | Ret (Some _) =>
      no_teardown (trace_of (setup_phase settings env s)) = true
  | _ => False
  end.
Proof.
  intros Hc Hh Hl Hr Hj Ho.
  unfold setup_phase, setup_body, setup_handler. rewrite Hc, Hh.
  cbv beta iota delta
    [try_except bind call emit lift log
     ret raise is_Exception exn_cls trace_of res_of interrupted] in *.
  destruct (login_out env) as [[| m] | [[| |] n]]; try discriminate Hl;
    try reflexivity.
  destruct (starts_with_hash (room_id (matrix settings)));
    [destruct (resolve_out env) as [[r | m] | [[| |] n]];
     try discriminate Hr |];
    destruct (join_out env) as [[| m'] | [[| |] n']]; try discriminate Hj;
    destruct (logout_out env) as [[] | [[| |] n'']]; try discriminate Ho;
    reflexivity.
Qed.

(** When the loop is left, the clean-up calls [close] once if [logout]
    returns, and never if [logout] raises. *)
Lemma polling_closes (room : string) (s : option string) :
  close_out (setup w) = Ok tt ->
  res_of (polling settings w room s) <> Pending ->
  closes (trace_of (polling settings w room s))
  = match logout_out (setup w) with
    | Ok _ => 1
    | Err _ => 0
    end.
Proof.
  intros Hc. unfold polling, cleanup. rewrite Hc.
  cbv beta iota delta [try_finally bind call emit lift log ret raise].
  pose proof (poll_loop_no_teardown settings room (polls w) s) as Ht.
  apply no_teardown_closes in Ht.
  pose proof (poll_loop_no_ret settings room (polls w) s) as Hn.
  destruct (poll_loop settings room (polls w) s) as [[t s'] [u | e |]];
    cbn [trace_of res_of fst snd] in *.
  - destruct (Hn u eq_refl).
  - intros _. destruct (logout_out (setup w)) as [[] | e'];
      cbn [trace_of fst snd]; rewrite ?closes_app, ?Ht; reflexivity.
  - intros H. destruct (H eq_refl).
Qed.

(** Every run that ends calls [close] exactly once, as long as [close]
    and the [logout] of the clean-up return and no call of the set-up is
    interrupted. *)
Lemma main_closes_once :
  missing_config settings = false ->
  close_out (setup w) = Ok tt ->
  handler_close_out (setup w) = Ok tt ->
  logout_out (setup w) = Ok tt ->
  interrupted (login_out (setup w)) = false ->
  interrupted (resolve_out (setup w)) = false ->
  interrupted (join_out (setup w)) = false ->
  res_of (run_main settings w) <> Pending ->
  closes (trace_of (run_main settings w)) = 1.
Proof.
  intros Hm Hc Hh Ho Hl Hr Hj.
  assert (interrupted (logout_out (setup w)) = false) as Hi
      by (rewrite Ho; reflexivity).
  pose proof (setup_phase_closes (setup w) None Hc Hh Hl Hr Hj Hi) as Hs.
  unfold run_main, main. rewrite Hm.
  cbv beta iota delta [bind log emit ret set_title].
  destruct (setup_phase settings (setup w) None) as [[t s] [[room |] | e |]];
    cbn [trace_of res_of fst snd] in Hs; try contradiction.
  - pose proof (polling_closes room None Hc) as Hp. rewrite Ho in Hp.
    destruct (polling settings w room None) as [[t' s'] r].
    cbn [trace_of res_of fst snd] in *. intros Hne.
    rewrite !closes_app, (no_teardown_closes _ Hs), (Hp Hne). reflexivity.
  - intros _. cbn [trace_of fst snd]. rewrite !closes_app, Hs. reflexivity.
Qed.

End Teardown.

(** ** C4 *)

(** C4, the failing run: login, alias resolution and join succeed, the
    first poll is cancelled in its sleep, and in the [finally] of line 174
    [logout] raises.  The exception leaves [main] and [close] was never
    called.  When the same [logout] raises in the set-up, after the alias
    failed to resolve, the handler of line 98 calls [close] once. *)
Theorem main_skips_close_when_logout_raises :
  closes (trace_of (run_main sample_settings
                      (mkWorld logout_raises_setup
                         [cancelled_poll (title_payload "Track 1")])))
  = 0
  /\ res_of (run_main sample_settings
               (mkWorld logout_raises_setup
                  [cancelled_poll (title_payload "Track 1")]))
     = Raise (Exn OtherException "ClientPayloadError")
  /\ closes (trace_of (run_main sample_settings
                         (mkWorld unresolved_setup [])))
     = 1.
Proof. repeat split. Qed.

(** A cancellation that arrives during the login is not caught by the
    handler of line 98 either: [main] is left without a [close]. *)
Lemma main_skips_close_when_login_cancelled :
  closes (trace_of (run_main sample_settings (mkWorld cancelled_setup [])))
  = 0
  /\ res_of (run_main sample_settings (mkWorld cancelled_setup []))
     = Raise (Exn BaseExceptionOnly "CancelledError").
Proof. split; reflexivity. Qed.

(** The run of the scenario, cancelled in its third sleep, with every call
    returning: one [close], after the [logout]. *)
Lemma main_closes_once_example :
  closes (trace_of (run_main sample_settings
                      (mkWorld good_setup
                         [good_poll (title_payload "Track 1");
                          good_poll (title_payload "Track 1");
                          cancelled_poll (title_payload "Track 2")])))
  = 1.
Proof.
  apply main_closes_once; try reflexivity. discriminate.
Qed.

(* ------------------------------------------------------------------ *)
(** * Further properties of the normaliser *)

Lemma forallb_impl {A} (p q : A -> bool) (l : list A) :
  (forall x, p x = true -> q x = true) ->
  forallb p l = true -> forallb q l = true.
Proof.
  intros H. induction l as [| a l IH]; [reflexivity |].
  cbn [forallb]. rewrite !andb_true_iff. intros [Ha Hl]. auto.
Qed.

(** Storing under a string that is no key of the dict appends the item. *)
Lemma dict_set_new (d : list (pyval * pyval)) (k : string) (v : pyval) :
  dict_get d (PStr k) = None -> dict_set d (PStr k) v = d ++ [(PStr k, v)].
Proof.
  induction d as [| [k' v'] d IH]; [reflexivity |].
  cbn [dict_get dict_set app]. intros H.
  destruct (key_eqb k' (PStr k)); [discriminate |].
  rewrite (IH H). reflexivity.
Qed.

Lemma dict_get_app_new (d : list (pyval * pyval)) (k : string) (v q : pyval) :
  dict_get (d ++ [(PStr k, v)]) q
  = match dict_get d q with
    | Some x => Some x
    | None => if key_eqb (PStr k) q then Some v else None
    end.
Proof.
  induction d as [| [k' v'] d IH]; [reflexivity |].
  cbn [dict_get app]. destruct (key_eqb k' q); [reflexivity | exact IH].
Qed.

Lemma dict_get_dict_of_none (kvs : list (string * pyval)) (k : string) :
  ~ In k (map fst kvs) -> dict_get (dict_of kvs) (PStr k) = None.
Proof.
  induction kvs as [| [k' v'] kvs IH]; [reflexivity |].
  cbn [map fst In dict_of dict_get key_eqb snd]. intros H.
  destruct (String.eqb k' k) eqn:E.
  - apply String.eqb_eq in E. tauto.
  - apply IH. tauto.
Qed.

(** The comprehension, run on the pairs of a mapping with distinct string
    keys, rebuilds the mapping behind what it started with. *)
Lemma dict_of_pairs_pairs_of (kvs : list (string * pyval)) :
  forall pre,
    NoDup (map fst (pre ++ kvs)) ->
    dict_of_pairs (dict_of pre) (pairs_of kvs) = Ok (dict_of (pre ++ kvs)).
Proof.
  induction kvs as [| [k v] kvs IH]; intros pre H.
  - rewrite app_nil_r. reflexivity.
  - cbn [pairs_of map fst snd]. rewrite dict_of_pairs_cons. cbn [hashable].
    rewrite dict_set_new.
    + replace (dict_of pre ++ [(PStr k, v)]) with (dict_of (pre ++ [(k, v)]))
        by (unfold dict_of; rewrite map_app; reflexivity).
      change (map (fun kv => PList [PStr (fst kv); snd kv]) kvs)
        with (pairs_of kvs).
      rewrite IH; rewrite <- app_assoc; [reflexivity | exact H].
    + apply dict_get_dict_of_none.
      rewrite map_app in H. apply NoDup_remove_2 in H.
      intros Hin. apply H. apply in_or_app. left. exact Hin.
Qed.

(** X1: a list of [key, value] pairs with pairwise different string keys
    validates exactly as the mapping with the same items does: to the same
    record, or to the same error. *)
Theorem model_validate_pairs_as_mapping (kvs : list (string * pyval)) :
  NoDup (map fst kvs) ->
  model_validate (PList (pairs_of kvs)) = model_validate (PDict (dict_of kvs)).
Proof.
  intros H. rewrite model_validate_list.
  change (@nil (pyval * pyval)) with (dict_of []).
  rewrite dict_of_pairs_pairs_of by exact H. reflexivity.
Qed.

(** X1, witness: a title and a file name. *)
Lemma model_validate_pairs_as_mapping_witness :
  model_validate
    (PList (pairs_of [("title", PStr "Song A"); ("filename", PNone)]))
  = model_validate
      (PDict (dict_of [("title", PStr "Song A"); ("filename", PNone)])).
Proof.
  apply model_validate_pairs_as_mapping.
  repeat constructor; cbn [In]; intuition discriminate.
Defined.

(** Validation reads the dict through its nine field names only. *)
Lemma validate_model_same_fields (d1 d2 : list (pyval * pyval)) :
  (forall n, In n field_names -> dict_get d1 (PStr n) = dict_get d2 (PStr n)) ->
  validate_model (PDict d1) = validate_model (PDict d2).
Proof.
  intros H. rewrite !validate_model_dict.
  unfold fields_valid, status_of_dict, field_names in *.
  cbn [forallb].
  rewrite !H by (cbn [In]; tauto). reflexivity.
Qed.

(** X2: a key that is not the name of a field is ignored: storing any value
    under it, new or in place of an old one, does not change the outcome of
    the validation of a mapping. *)
Theorem model_validate_ignores_unknown_key (d : list (pyval * pyval))
    (k v : pyval) :
  (forall n, In n field_names -> k <> PStr n) ->
  model_validate (PDict (dict_set d k v)) = model_validate (PDict d).
Proof.
  intros H. unfold model_validate, parse_list.
  apply validate_model_same_fields. intros n Hn.
  rewrite dict_get_set.
  destruct (key_eqb k (PStr n)) eqn:E; [| reflexivity].
  apply key_eqb_str_r in E. destruct (H n Hn E).
Qed.

(** X2, witness: the key ["bitrate"]. *)
Lemma model_validate_ignores_unknown_key_witness :
  model_validate
    (PDict (dict_set [(PStr "title", PStr "Song A")] (PStr "bitrate") (PInt 128)))
  = model_validate (PDict [(PStr "title", PStr "Song A")]).
Proof.
  apply model_validate_ignores_unknown_key.
  unfold field_names. cbn [In]. intros n H.
  repeat (destruct H as [<- | H]; [discriminate |]). destruct H.
Defined.

(** Every exception of [model_validate] is caught by [except Exception]
    and is no [httpx.HTTPError]. *)
Lemma model_validate_err_class (data : pyval) (e : exn) :
  model_validate data = Err e -> exn_cls e = OtherException.
Proof.
  unfold model_validate, parse_list.
  assert (forall items acc e', dict_of_pairs acc items = Err e' -> e' = TypeError)
    as Hd.
  { induction items as [| item rest IH]; intros acc e'; [discriminate |].
    destruct (is_pair item) eqn:E.
    - destruct (is_pair_inv _ E) as (k & v & ->). rewrite dict_of_pairs_cons.
      destruct (hashable k); [apply IH | intros [= <-]; reflexivity].
    - rewrite dict_of_pairs_skip by exact E. apply IH. }
  assert (forall v e', validate_model v = Err e' -> e' = ValidationError) as Hv.
  { intros v e'. destruct (is_dict v) eqn:E.
    - destruct v; try discriminate E. rewrite validate_model_dict.
      destruct (fields_valid items); [discriminate | intros [= <-]; reflexivity].
    - rewrite validate_model_not_dict by exact E. intros [= <-]. reflexivity. }
  destruct data; try (intros H; apply Hv in H; subst; reflexivity).
  destruct (dict_of_pairs [] items) as [d | e'] eqn:E.
  - intros H. apply Hv in H. subst. reflexivity.
  - intros [= <-]. apply Hd in E. subst. reflexivity.
Qed.

(* ------------------------------------------------------------------ *)
(** * Further properties of the derived title *)

Lemma occurs_replace (old new c : ascii) (s : string) :
  Ascii.eqb new c = false -> Ascii.eqb old c = true \/ occurs c s = false ->
  occurs c (replace old new s) = false.
Proof.
  intros Hn. induction s as [| a s IH]; [reflexivity |].
  cbn [replace occurs]. intros [Ho | Hs].
  - destruct (Ascii.eqb a old) eqn:E.
    + rewrite Hn. apply IH. left. exact Ho.
    + assert (Ascii.eqb a c = false) as ->.
      { apply Ascii.eqb_eq in Ho. subst c. exact E. }
      apply IH. left. exact Ho.
  - apply orb_false_iff in Hs. destruct Hs as [Ha Hs].
    destruct (Ascii.eqb a old) eqn:E.
    + rewrite Hn. apply IH. right. exact Hs.
    + rewrite Ha. apply IH. right. exact Hs.
Qed.

(** X3: a title derived from the file name holds neither a '/' nor a
    '_'. *)
Theorem song_title_from_filename_clean (st : RadioStatus) :
  truthy (title st) = false ->
  truthy (filename st) = true ->
  occurs "/" (song_title st) = false /\ occurs "_" (song_title st) = false.
Proof.
  unfold song_title.
  destruct (title st) as [[| c t] |]; cbn [truthy]; try discriminate;
    intros _; (destruct (filename st) as [[| a f] |]; cbn [truthy];
               try discriminate; intros _).
  all: split;
    [ apply occurs_replace;
      [reflexivity | right; apply last_split_no_sep]
    | apply occurs_replace; [reflexivity | left; reflexivity] ].
Qed.

(** X3, witness: ["/mnt/music/My_Song.mp3"]. *)
Lemma song_title_from_filename_clean_witness :
  occurs "/" (song_title (status_with None (Some "/mnt/music/My_Song.mp3")))
  = false
  /\ occurs "_" (song_title (status_with None (Some "/mnt/music/My_Song.mp3")))
     = false.
Proof.
  apply song_title_from_filename_clean; reflexivity.
Defined.

(* ------------------------------------------------------------------ *)
(** * Further properties of one iteration *)

Lemma count_app (p : event -> bool) (a b : list event) :
  count p (a ++ b) = count p a + count p b.
Proof. unfold count. rewrite filter_app, length_app. reflexivity. Qed.

Lemma count_none (p q : event -> bool) (t : list event) :
  (forall ev, q ev = true -> p ev = false) ->
  forallb q t = true -> count p t = 0.
Proof.
  intros H. unfold count. induction t as [| ev t IH]; [reflexivity |].
  cbn [forallb filter]. rewrite andb_true_iff. intros [Hq Ht].
  rewrite (H ev Hq). apply IH, Ht.
Qed.

Lemma forallb_In {A} (p : A -> bool) (l : list A) (x : A) :
  forallb p l = true -> In x l -> p x = true.
Proof. intros H Hx. rewrite forallb_forall in H. apply H, Hx. Qed.

Lemma iteration_event_weaken (settings : Settings) (room : string)
    (song : option string) (ev : event) :
  iteration_event settings room None ev = true ->
  iteration_event settings room song ev = true.
Proof. destruct ev; cbn [iteration_event]; try discriminate; auto. Qed.

Lemma iteration_event_loop (settings : Settings) (room : string)
    (song : option string) (ev : event) :
  iteration_event settings room song ev = true ->
  loop_event settings room ev = true.
Proof.
  destruct ev; cbn [iteration_event loop_event]; auto;
    destruct song; try discriminate;
    rewrite !andb_true_iff; tauto.
Qed.

Section IterationEvents.

Variables (settings : Settings) (room : string) (env : poll_env).

(** The branch of line 125 makes the two calls for the title it was given,
    and an exception that leaves it comes from one of them. *)
Lemma notify_events (cur s : option string) (song : string) :
  forallb (iteration_event settings room (Some song))
    (trace_of (notify settings room env cur song s)) = true
  /\ count is_http_get (trace_of (notify settings room env cur song s)) = 0
  /\ (forall e,
         res_of (notify settings room env cur song s) = Raise e ->
         send_out env = Err e \/ topic_out env = Err e).
Proof.
  run_M.
  destruct (send_messages (matrix settings)) eqn:Hs,
    (update_topic (matrix settings)) eqn:Hu,
    (send_out env) as [[| m1] | e1], (topic_out env) as [[| m2] | e2];
    cbn [app fst snd forallb iteration_event];
    rewrite ?Hs, ?Hu, ?String.eqb_refl; cbn [andb];
    (split; [reflexivity |]);
    (split; [destruct cur; reflexivity |]);
    intros e H; try discriminate H; injection H as <-; auto.
Qed.

(** What the body of the [try] does, and where an exception that is not an
    [Exception] can come from. *)
Lemma poll_body_events (s : option string) :
  forallb (iteration_event settings room (dispatched env s))
    (trace_of (poll_body settings room env s)) = true
  /\ hd_error (trace_of (poll_body settings room env s))
     = Some (HttpGet (api_url (radio settings)))
  /\ count is_http_get (trace_of (poll_body settings room env s)) = 1
  /\ (forall e,
         res_of (poll_body settings room env s) = Raise e ->
         is_Exception e = false ->
         get_out env = Err e \/ send_out env = Err e \/ topic_out env = Err e).
Proof.
  unfold dispatched.
  destruct (polled_title env) as [song |] eqn:Hp.
  - rewrite (poll_body_polled settings room env song s Hp).
    destruct (should_notify song s).
    + destruct (notify_events s s song) as (He & Hc & Hr).
      destruct (notify settings room env s song s) as [[t s'] r].
      cbn [trace_of res_of fst snd] in *.
      repeat split.
      * cbn [forallb iteration_event]. rewrite String.eqb_refl, He. reflexivity.
      * change (HttpGet (api_url (radio settings)) :: t)
          with ([HttpGet (api_url (radio settings))] ++ t).
        rewrite count_app, Hc. reflexivity.
      * intros e H _. specialize (Hr e H). tauto.
    + cbn [trace_of res_of fst snd forallb iteration_event].
      rewrite String.eqb_refl. repeat split; try reflexivity. discriminate.
  - unfold polled_title in Hp. run_M.
    destruct (get_out env) as [resp | e0].
    + destruct (status_is_error resp).
      * cbn [fst snd app forallb iteration_event hd_error].
        rewrite String.eqb_refl. repeat split; try reflexivity.
        intros e [= <-]. discriminate.
      * destruct (json resp) as [data |].
        -- destruct (model_validate data) as [st | e1] eqn:Hm; [discriminate |].
           cbn [fst snd app forallb iteration_event hd_error].
           rewrite String.eqb_refl. repeat split; try reflexivity.
           intros e [= <-] He. apply model_validate_err_class in Hm.
           destruct e1 as [c n]. cbn [exn_cls] in Hm. subst c. discriminate He.
        -- cbn [fst snd app forallb iteration_event hd_error].
           rewrite String.eqb_refl. repeat split; try reflexivity.
           intros e [= <-]. discriminate.
    + cbn [fst snd app forallb iteration_event hd_error].
      rewrite String.eqb_refl. repeat split; try reflexivity.
      intros e [= <-]. auto.
Qed.

End IterationEvents.

Section IterationShape.

Variables (settings : Settings) (room : string) (env : poll_env).

(** What the handlers and the sleep add behind the body: at most one log
    record, then the sleep unless an exception that is no [Exception] left
    the body. *)
Lemma poll_once_tail (s : option string) :
  exists t' r',
    poll_once settings room env s
    = (trace_of (poll_body settings room env s) ++ t',
       state_of (poll_body settings room env s), r')
    /\ forallb (iteration_event settings room None) t' = true
    /\ count is_http_get t' = 0
    /\ quiet t' = true
    /\ (forall e,
           r' = Raise e ->
           sleep_out env = Err e
           \/ (res_of (poll_body settings room env s) = Raise e
               /\ is_Exception e = false))
    /\ ((forall e, res_of (poll_body settings room env s) = Raise e ->
                   is_Exception e = true) ->
        res_of (poll_body settings room env s) <> Pending ->
        last t' HttpOpen = Sleep (poll_interval (radio settings))
        /\ (sleep_out env = Ok tt -> r' = Ret tt)).
Proof.
  cbv beta iota delta [poll_once try_except bind].
  destruct (poll_body settings room env s) as [[t s'] r].
  cbn [trace_of state_of res_of fst snd].
  destruct r as [[] | [[| |] n] |]; run_M; cbn [app];
    try (destruct (sleep_out env) as [[] | e0]);
    rewrite <- ?app_assoc;
    lazymatch goal with
    | |- exists t' r', (_ ++ ?T, _, ?R) = _ /\ _ => exists T, R
    | |- exists t' r', (_, _, ?R) = _ /\ _ =>
        exists [], R; rewrite app_nil_r
    end;
    cbn [app forallb iteration_event last];
    rewrite ?Z.eqb_refl.
  all: split; [reflexivity |].
  all: split; [reflexivity |].
  all: split; [reflexivity |].
  all: split; [reflexivity |].
  all: split.
  all: try (intros e H; try discriminate H; injection H as <-; auto; fail).
  all: intros H1 H2.
  all: try (specialize (H1 _ eq_refl); discriminate H1).
  all: try (destruct (H2 eq_refl); fail).
  all: split; [reflexivity | intros H; try discriminate H; reflexivity].
Qed.

(** Every event of an iteration is one [iteration_event] allows for the
    title the iteration dispatches. *)
Lemma poll_once_events (s : option string) :
  forallb (iteration_event settings room (dispatched env s))
    (trace_of (poll_once settings room env s)) = true.
Proof.
  destruct (poll_once_tail s) as (t' & r' & -> & Ht & _).
  destruct (poll_body_events settings room env s) as (Hb & _).
  cbn [trace_of fst snd]. rewrite forallb_app, Hb. cbn [andb].
  apply (forallb_impl _ _ _ (iteration_event_weaken settings room _) Ht).
Qed.

End IterationShape.

(** X4: a message one iteration sends goes to the room the loop works on,
    [send_messages] is set, and its body is the message for the title the
    iteration polled, a title that passed the test of line 125 against the
    previous title. *)
Theorem poll_once_sends_polled_title (settings : Settings) (room : string)
    (env : poll_env) (s : option string) (r body : string) :
  In (ClientRoomSend r body) (trace_of (poll_once settings room env s)) ->
  r = room
  /\ send_messages (matrix settings) = true
  /\ exists song,
      polled_title env = Some song
      /\ should_notify song s = true
      /\ body = message_of song.
Proof.
  pose proof (poll_once_events settings room env s) as He.
  unfold dispatched in He. intros H.
  apply (forallb_In _ _ _ He) in H. cbn [iteration_event] in H.
  destruct (polled_title env) as [song |]; [| discriminate H].
  destruct (should_notify song s) eqn:Hn; [| discriminate H].
  apply andb_true_iff in H. destruct H as [H Hb].
  apply andb_true_iff in H. destruct H as [Hf Hr].
  apply String.eqb_eq in Hb, Hr.
  split; [exact Hr |]. split; [exact Hf |]. exists song. auto.
Qed.

(** X4, witness: "Track 2" follows "Track 1". *)
Lemma poll_once_sends_polled_title_witness :
  "!abc:matrix.org" = "!abc:matrix.org"
  /\ send_messages (matrix sample_settings) = true
  /\ exists song,
      polled_title (good_poll (title_payload "Track 2")) = Some song
      /\ should_notify song (Some "Track 1") = true
      /\ message_of "Track 2" = message_of song.
Proof.
  apply (poll_once_sends_polled_title sample_settings "!abc:matrix.org"
           (good_poll (title_payload "Track 2")) (Some "Track 1")).
  cbn. tauto.
Defined.

(** X5: a topic one iteration puts is put on the room the loop works on,
    [update_topic] is set, and the topic is the one built from the radio's
    name and stream URL and the title the iteration polled, a title that
    passed the test of line 125 against the previous title. *)
Theorem poll_once_puts_polled_title (settings : Settings) (room : string)
    (env : poll_env) (s : option string) (r topic : string) :
  In (ClientRoomPutState r topic) (trace_of (poll_once settings room env s)) ->
  r = room
  /\ update_topic (matrix settings) = true
  /\ exists song,
      polled_title env = Some song
      /\ should_notify song s = true
      /\ topic = topic_of settings song.
Proof.
  pose proof (poll_once_events settings room env s) as He.
  unfold dispatched in He. intros H.
  apply (forallb_In _ _ _ He) in H. cbn [iteration_event] in H.
  destruct (polled_title env) as [song |]; [| discriminate H].
  destruct (should_notify song s) eqn:Hn; [| discriminate H].
  apply andb_true_iff in H. destruct H as [H Hb].
  apply andb_true_iff in H. destruct H as [Hf Hr].
  apply String.eqb_eq in Hb, Hr.
  split; [exact Hr |]. split; [exact Hf |]. exists song. auto.
Qed.

(** X5, witness: the first poll returns "Track 1". *)
Lemma poll_once_puts_polled_title_witness :
  "!abc:matrix.org" = "!abc:matrix.org"
  /\ update_topic (matrix sample_settings) = true
  /\ exists song,
      polled_title (good_poll (title_payload "Track 1")) = Some song
      /\ should_notify song None = true
      /\ topic_of sample_settings "Track 1" = topic_of sample_settings song.
Proof.
  apply (poll_once_puts_polled_title sample_settings "!abc:matrix.org"
           (good_poll (title_payload "Track 1")) None).
  cbn. tauto.
Defined.

Lemma last_app_nonempty {A} (a b : list A) (d : A) :
  b <> [] -> last (a ++ b) d = last b d.
Proof.
  intros Hb. induction a as [| x a IH]; [reflexivity |].
  cbn [app last]. destruct (a ++ b) eqn:E; [| exact IH].
  destruct a; [contradiction | discriminate].
Qed.

(** X6: an iteration none of whose calls is interrupted makes exactly one
    GET, as its first call, and ends with the sleep of the configured
    interval, also when the fetch or a call to the room raised. *)
Theorem poll_once_get_then_sleep (settings : Settings) (room : string)
    (env : poll_env) (s : option string) :
  uninterrupted env = true ->
  hd_error (trace_of (poll_once settings room env s))
  = Some (HttpGet (api_url (radio settings)))
  /\ count is_http_get (trace_of (poll_once settings room env s)) = 1
  /\ last (trace_of (poll_once settings room env s)) HttpOpen
     = Sleep (poll_interval (radio settings)).
Proof.
  unfold uninterrupted, interrupted. intros Hu.
  apply andb_true_iff in Hu. destruct Hu as [Hu Ht].
  apply andb_true_iff in Hu. destruct Hu as [Hg Hs].
  destruct (poll_once_tail settings room env s) as (t' & r' & -> & _ & Hc & _ & _ & Hl).
  destruct (poll_body_events settings room env s) as (_ & Hh & Hn & Ho).
  pose proof (poll_body_failed settings room env s) as Hf.
  pose proof (poll_body_polled settings room env) as Hp.
  assert (res_of (poll_body settings room env s) <> Pending) as Hnp.
  { destruct (polled_title env) as [song |].
    - rewrite (Hp song s eq_refl). destruct (should_notify song s);
        [| discriminate].
      destruct (notify_run settings room env song) as (t & r & Hr & _ & _ & Hne & _).
      rewrite Hr. exact Hne.
    - destruct (Hf eq_refl) as [e ->]. discriminate. }
  assert (forall e, res_of (poll_body settings room env s) = Raise e ->
                    is_Exception e = true) as Hex.
  { intros e He. destruct (is_Exception e) eqn:E; [reflexivity |].
    destruct (Ho e He E) as [H | [H | H]];
      [rewrite H in Hg | rewrite H in Hs | rewrite H in Ht];
      rewrite E in *; discriminate. }
  destruct (Hl Hex Hnp) as [Hlast _].
  cbn [trace_of fst snd].
  destruct (trace_of (poll_body settings room env s)) as [| ev t] eqn:Et;
    [discriminate Hh |].
  split; [exact Hh |]. split.
  - rewrite count_app, Hn, Hc. reflexivity.
  - destruct t' as [| ev' t']; [discriminate Hlast |].
    rewrite last_app_nonempty by discriminate. exact Hlast.
Qed.

(** X6, witness: the GET times out. *)
Lemma poll_once_get_then_sleep_witness :
  hd_error (trace_of (poll_once sample_settings "!abc:matrix.org" timeout_poll
                        (Some "Track 1")))
  = Some (HttpGet (api_url (radio sample_settings)))
  /\ count is_http_get
       (trace_of (poll_once sample_settings "!abc:matrix.org" timeout_poll
                    (Some "Track 1"))) = 1
  /\ last (trace_of (poll_once sample_settings "!abc:matrix.org" timeout_poll
                       (Some "Track 1"))) HttpOpen
     = Sleep (poll_interval (radio sample_settings)).
Proof.
  apply poll_once_get_then_sleep. reflexivity.
Defined.

(* ------------------------------------------------------------------ *)
(** * Further properties of the loop *)

Lemma announced_app (a b : list event) :
  announced (a ++ b) = announced a ++ announced b.
Proof.
  induction a as [| ev a IH]; [reflexivity |].
  cbn [app announced]. destruct (song_of ev); rewrite IH; reflexivity.
Qed.

Lemma announced_no_announce (t : list event) :
  filter is_announce t = [] -> announced t = [].
Proof.
  induction t as [| ev t IH]; [reflexivity |].
  cbn [filter announced].
  destruct ev as [[] | | | | | | | | | | | |]; cbn [is_announce song_of];
    try discriminate; exact IH.
Qed.

Lemma quiet_no_announce (t : list event) :
  quiet t = true -> filter is_announce t = [].
Proof.
  induction t as [| ev t IH]; [reflexivity |].
  cbn [quiet forallb filter]. intros H.
  apply andb_true_iff in H. destruct H as [H1 H2].
  apply negb_true_iff, orb_false_iff in H1. destruct H1 as [-> _].
  apply IH, H2.
Qed.

Lemma last_cons_default {A} (x : A) (l : list A) (d : A) :
  last (x :: l) d = last l x.
Proof.
  revert x d. induction l as [| y l IH]; intros x d; [reflexivity |].
  change (last (x :: y :: l) d) with (last (y :: l) d).
  rewrite !IH. reflexivity.
Qed.

Section LoopMore.

Variables (settings : Settings) (room : string).

(** One iteration whose calls return: it announces the polled title if
    the title passes the test, moves the state to it, and falls through. *)
Lemma poll_once_returns (env : poll_env) (s : option string) :
  notify_returns env = true ->
  sleep_out env = Ok tt ->
  interrupted (get_out env) = false ->
  announced (trace_of (poll_once settings room env s))
  = changes s [polled_title env]
  /\ state_of (poll_once settings room env s)
     = last (map Some (changes s [polled_title env])) s
  /\ res_of (poll_once settings room env s) = Ret tt.
Proof.
  intros Hr Hs Hg.
  destruct (poll_once_tail settings room env s)
    as (t' & r' & -> & _ & _ & Hq & _ & Hl).
  destruct (poll_body_events settings room env s) as (_ & _ & _ & Ho).
  cbn [trace_of state_of res_of fst snd changes].
  rewrite announced_app,
    (announced_no_announce _ (quiet_no_announce _ Hq)), app_nil_r.
  assert (forall e, res_of (poll_body settings room env s) = Raise e ->
                    is_Exception e = true) as Hex.
  { intros e He. destruct (is_Exception e) eqn:E; [reflexivity |].
    unfold notify_returns in Hr. unfold interrupted in Hg.
    destruct (Ho e He E) as [H | [H | H]]; rewrite H in *;
      [rewrite E in Hg; discriminate | discriminate |].
    destruct (send_out env); discriminate. }
  destruct (polled_title env) as [song |] eqn:Hp.
  - rewrite (poll_body_polled settings room env song s Hp) in *.
    destruct (should_notify song s).
    + destruct (notify_run settings room env song)
        as (t & r & Hn & Ha & _ & Hne & Hret).
      rewrite Hn in *. rewrite (Hret Hr) in *.
      cbn [trace_of state_of res_of fst snd] in *.
      destruct (Hl Hex ltac:(discriminate)) as [_ Hres].
      cbn [announced song_of]. destruct s; cbn [announce song_of];
        rewrite (announced_no_announce _ Ha); auto.
    + cbn [trace_of state_of res_of fst snd] in *.
      destruct (Hl Hex ltac:(discriminate)) as [_ Hres]. auto.
  - destruct (poll_body_failed settings room env s Hp) as [e Hb].
    rewrite Hb in *. cbn [trace_of state_of res_of fst snd] in *.
    destruct (Hl Hex ltac:(discriminate)) as [_ Hres]. auto.
Qed.

(** Every iteration makes one GET and at most one dispatch. *)
Lemma poll_once_counts (env : poll_env) (s : option string) :
  count is_http_get (trace_of (poll_once settings room env s)) = 1
  /\ dispatches (trace_of (poll_once settings room env s)) <= 1.
Proof.
  split.
  - destruct (poll_once_tail settings room env s)
      as (t' & r' & -> & _ & Hc & _).
    destruct (poll_body_events settings room env s) as (_ & _ & Hn & _).
    cbn [trace_of fst snd]. rewrite count_app, Hn, Hc. reflexivity.
  - destruct (polled_title env) as [song |] eqn:Hp.
    + destruct (should_notify song s) eqn:Hn.
      * destruct (poll_once_changed settings room env song s Hp Hn) as [-> _].
        lia.
      * destruct (poll_once_unchanged settings room env song s Hp Hn)
          as [_ Hq].
        rewrite (quiet_dispatches _ Hq). lia.
    + destruct (poll_once_failed settings room env s Hp) as [_ Hq].
      rewrite (quiet_dispatches _ Hq). lia.
Qed.

(** An exception that leaves an iteration was raised by its sleep, or is
    no [Exception] and was raised by one of its three calls. *)
Lemma poll_once_exit_cause (env : poll_env) (s : option string) (e : exn) :
  res_of (poll_once settings room env s) = Raise e ->
  sleep_out env = Err e
  \/ (is_Exception e = false
      /\ (get_out env = Err e \/ send_out env = Err e
          \/ topic_out env = Err e)).
Proof.
  destruct (poll_once_tail settings room env s)
    as (t' & r' & -> & _ & _ & _ & Hr & _).
  destruct (poll_body_events settings room env s) as (_ & _ & _ & Ho).
  cbn [res_of snd]. intros H.
  destruct (Hr e H) as [Hs | [Hb He]]; [left; exact Hs | right].
  split; [exact He | exact (Ho e Hb He)].
Qed.

End LoopMore.

(** X7: an exception leaves the loop only if the sleep of an iteration
    raised it, or if it is no [Exception] (a cancellation, a keyboard
    interrupt) and the GET, [room_send] or [room_put_state] of an iteration
    raised it; no failure of the fetch, of the parsing or of a notification
    that is an [Exception] ends the loop. *)
Theorem poll_loop_exit_cause (settings : Settings) (room : string)
    (envs : list poll_env) (s : option string) (e : exn) :
  res_of (poll_loop settings room envs s) = Raise e ->
  exists env,
    In env envs
    /\ (sleep_out env = Err e
        \/ (is_Exception e = false
            /\ (get_out env = Err e \/ send_out env = Err e
                \/ topic_out env = Err e))).
Proof.
  revert s. induction envs as [| env rest IH]; intros s; [discriminate |].
  rewrite poll_loop_cons.
  pose proof (poll_once_exit_cause settings room env s e) as H1.
  destruct (poll_once settings room env s) as [[t s'] [[] | e' |]];
    cbn [res_of snd] in *.
  - specialize (IH s').
    destruct (poll_loop settings room rest s') as [[t' s''] r].
    cbn [res_of snd] in *. intros H. destruct (IH H) as (env' & Hin & Hc).
    exists env'. split; [right; exact Hin | exact Hc].
  - intros [= ->]. exists env. split; [left; reflexivity | auto].
  - discriminate.
Qed.

(** X7, witness: the second poll is cancelled in its sleep. *)
Lemma poll_loop_exit_cause_witness :
  exists env,
    In env [good_poll (title_payload "Track 1");
            cancelled_poll (title_payload "Track 1")]
    /\ (sleep_out env = Err (Exn BaseExceptionOnly "CancelledError")
        \/ (is_Exception (Exn BaseExceptionOnly "CancelledError") = false
            /\ (get_out env = Err (Exn BaseExceptionOnly "CancelledError")
                \/ send_out env = Err (Exn BaseExceptionOnly "CancelledError")
                \/ topic_out env
                   = Err (Exn BaseExceptionOnly "CancelledError")))).
Proof.
  apply (poll_loop_exit_cause sample_settings "!abc:matrix.org"
           [good_poll (title_payload "Track 1");
            cancelled_poll (title_payload "Track 1")] None).
  reflexivity.
Defined.

(** X8: when every GET returns or raises an [Exception], every call to the
    room returns and every sleep returns, the titles the loop announces
    are, in order, the polled titles that pass the test of line 125 against
    the title announced before them: failed polls, empty titles and repeats
    of the last announced title are passed over.  The state at the end is
    the last title announced, or the state at the start if there is none. *)
Theorem poll_loop_announces_changes (settings : Settings) (room : string)
    (envs : list poll_env) (s : option string) :
  Forall (fun env =>
            notify_returns env = true /\ sleep_out env = Ok tt
            /\ interrupted (get_out env) = false) envs ->
  announced (trace_of (poll_loop settings room envs s))
  = changes s (map polled_title envs)
  /\ state_of (poll_loop settings room envs s)
     = last (map Some (changes s (map polled_title envs))) s.
Proof.
  intros H. revert s.
  induction H as [| env rest (Hr & Hs & Hg) _ IH]; intros s;
    [split; reflexivity |].
  rewrite poll_loop_cons.
  destruct (poll_once_returns settings room env s Hr Hs Hg) as (Ha & Hst & Hres).
  destruct (poll_once settings room env s) as [[t s'] r].
  cbn [trace_of state_of res_of fst snd] in *. subst r.
  destruct (IH s') as [IHa IHs].
  destruct (poll_loop settings room rest s') as [[t' s''] r'].
  cbn [trace_of state_of fst snd] in *.
  rewrite announced_app, Ha, IHa, IHs, Hst. cbn [map changes].
  destruct (polled_title env) as [song |]; [| split; reflexivity].
  destruct (should_notify song s); [| split; reflexivity].
  change (last (map Some [song]) s) with (Some song).
  cbn [map app]. split; [reflexivity |].
  rewrite last_cons_default. reflexivity.
Qed.

(** X8, witness: "Track 1", a time-out, "Track 1" again with both calls
    refused, an empty title, then "Track 2". *)
Lemma poll_loop_announces_changes_witness :
  announced
    (trace_of (poll_loop sample_settings "!abc:matrix.org"
                 [good_poll (title_payload "Track 1"); timeout_poll;
                  refused_poll (title_payload "Track 1");
                  good_poll (PDict [(PStr "filename", PStr "music/")]);
                  good_poll (title_payload "Track 2")] None))
  = ["Track 1"; "Track 2"]
  /\ state_of (poll_loop sample_settings "!abc:matrix.org"
                 [good_poll (title_payload "Track 1"); timeout_poll;
                  refused_poll (title_payload "Track 1");
                  good_poll (PDict [(PStr "filename", PStr "music/")]);
                  good_poll (title_payload "Track 2")] None)
     = Some "Track 2".
Proof.
  apply (poll_loop_announces_changes sample_settings "!abc:matrix.org"
           [good_poll (title_payload "Track 1"); timeout_poll;
            refused_poll (title_payload "Track 1");
            good_poll (PDict [(PStr "filename", PStr "music/")]);
            good_poll (title_payload "Track 2")] None).
  repeat constructor.
Defined.

(** X9: in every run of the loop there are at most as many dispatches as
    GETs, and exactly one GET for every iteration that was started, so at
    most as many as polls in the script. *)
Theorem poll_loop_dispatch_bound (settings : Settings) (room : string)
    (envs : list poll_env) (s : option string) :
  dispatches (trace_of (poll_loop settings room envs s))
  <= count is_http_get (trace_of (poll_loop settings room envs s))
  /\ count is_http_get (trace_of (poll_loop settings room envs s))
     <= List.length envs.
Proof.
  revert s. induction envs as [| env rest IH]; intros s.
  - cbn. lia.
  - rewrite poll_loop_cons.
    change (Datatypes.length (env :: rest)) with (S (Datatypes.length rest)).
    destruct (poll_once_counts settings room env s) as [Hg Hd].
    destruct (poll_once settings room env s) as [[t s'] [[] | e |]];
      cbn [trace_of fst snd length] in *; try lia.
    specialize (IH s').
    destruct (poll_loop settings room rest s') as [[t' s''] r].
    cbn [trace_of fst snd] in *.
    rewrite dispatches_app, count_app. lia.
Qed.

(* ------------------------------------------------------------------ *)
(** * Further properties of a whole run *)

Ltac setup_cases env :=
  repeat
    (match goal with
     | |- context [match login_out env with _ => _ end] =>
         destruct (login_out env) as [[| ?] | [[| |] ?]]
     | |- context [if starts_with_hash ?r then _ else _] =>
         destruct (starts_with_hash r)
     | |- context [match resolve_out env with _ => _ end] =>
         destruct (resolve_out env) as [[? | ?] | [[| |] ?]]
     | |- context [match join_out env with _ => _ end] =>
         destruct (join_out env) as [[| ?] | [[| |] ?]]
     | |- context [match logout_out env with _ => _ end] =>
         destruct (logout_out env) as [[] | [[| |] ?]]
     | |- context [match close_out env with _ => _ end] =>
         destruct (close_out env) as [[] | [[| |] ?]]
     | |- context [match handler_close_out env with _ => _ end] =>
         destruct (handler_close_out env) as [[] | [[| |] ?]]
     end;
     cbn [app fst snd]).

Section Run.

Variables (settings : Settings) (w : world).

(** The set-up, whatever its calls answer. *)
Lemma setup_phase_shape (s : option string) :
  forallb (setup_event settings (setup w))
    (trace_of (setup_phase settings (setup w) s)) = true
  /\ count is_logout (trace_of (setup_phase settings (setup w) s)) <= 1
  /\ (In ClientLogout (trace_of (setup_phase settings (setup w) s)) ->
      login_out (setup w) = Ok LoginResponse)
  /\ match res_of (setup_phase settings (setup w) s) with
     | Ret (Some room) =>
         setup_succeeds settings (setup w) = true
         /\ room = target_room settings (setup w)
         /\ count is_logout (trace_of (setup_phase settings (setup w) s)) = 0
     | Ret None | Raise _ => setup_succeeds settings (setup w) = false
     | Pending => False
     end.
Proof.
  unfold setup_phase, setup_body, setup_handler, setup_succeeds, setup_event,
    target_room, count.
  cbv beta iota delta
    [try_except bind call emit lift log ret raise is_Exception exn_cls
     trace_of res_of].
  setup_cases (setup w);
    cbn [forallb filter is_logout Datatypes.length In andb];
    rewrite ?String.eqb_refl;
    repeat split; try reflexivity; try lia;
    try (intros H; repeat (destruct H as [H | H]; try discriminate H);
         try destruct H; fail).
Qed.

Lemma count_cons (p : event -> bool) (ev : event) (t : list event) :
  count p (ev :: t) = (if p ev then 1 else 0) + count p t.
Proof. unfold count. cbn [filter]. destruct (p ev); reflexivity. Qed.

(** Every event of the loop is one [loop_event] allows. *)
Lemma poll_loop_events (room : string) (envs : list poll_env) :
  forall s,
    forallb (loop_event settings room)
      (trace_of (poll_loop settings room envs s)) = true.
Proof.
  induction envs as [| env rest IH]; intros s; [reflexivity |].
  rewrite poll_loop_cons.
  pose proof (poll_once_events settings room env s) as He.
  apply (forallb_impl _ _ _ (iteration_event_loop settings room _)) in He.
  destruct (poll_once settings room env s) as [[t s'] [[] | e |]];
    cbn [trace_of fst snd] in *; try exact He.
  specialize (IH s').
  destruct (poll_loop settings room rest s') as [[t' s''] r].
  cbn [trace_of fst snd] in *. rewrite forallb_app, He, IH. reflexivity.
Qed.

(** The part after the set-up: it opens the HTTP client first, closes it
    last unless the script ends in the loop, logs out at most once, and
    stays within [polling_event]. *)
Lemma polling_shape (room : string) (s : option string) :
  forallb (polling_event settings room)
    (trace_of (polling settings w room s)) = true
  /\ hd_error (trace_of (polling settings w room s)) = Some HttpOpen
  /\ count is_http_open (trace_of (polling settings w room s)) = 1
  /\ count is_http_close (trace_of (polling settings w room s))
     = match res_of (polling settings w room s) with
       | Pending => 0
       | _ => 1
       end
  /\ count is_logout (trace_of (polling settings w room s)) <= 1
  /\ (forall u, res_of (polling settings w room s) <> Ret u).
Proof.
  pose proof (poll_loop_events room (polls w) s) as He.
  pose proof (poll_loop_no_ret settings room (polls w) s) as Hn.
  assert (forall p, (forall ev, loop_event settings room ev = true ->
                                p ev = false) ->
                    count p (trace_of (poll_loop settings room (polls w) s))
                    = 0) as Hc.
  { intros p Hp. apply (count_none p _ _ Hp He). }
  pose proof (Hc is_http_open
                ltac:(intros ev; destruct ev; cbn; auto; discriminate)) as Ho.
  pose proof (Hc is_http_close
                ltac:(intros ev; destruct ev; cbn; auto; discriminate)) as Hcl.
  pose proof (Hc is_logout
                ltac:(intros ev; destruct ev; cbn; auto; discriminate)) as Hl.
  apply (forallb_impl _ (polling_event settings room)) in He;
    [| intros ev; destruct ev; cbn [polling_event]; auto].
  clear Hc. unfold polling, cleanup.
  cbv beta iota delta [try_finally bind call emit lift log ret raise].
  destruct (poll_loop settings room (polls w) s) as [[t s'] [u | e |]];
    cbn [trace_of res_of fst snd] in *.
  - destruct (Hn u eq_refl).
  - destruct (logout_out (setup w)) as [[] | e1];
      [destruct (close_out (setup w)) as [[] | e2] |];
      cbn [trace_of res_of fst snd app hd_error forallb];
      rewrite ?count_cons, ?forallb_app, ?count_app, ?He, ?Ho, ?Hcl, ?Hl;
      repeat split; try reflexivity; try discriminate;
      cbn; lia.
  - cbn [trace_of res_of fst snd app hd_error forallb].
    rewrite ?count_cons, ?forallb_app, ?count_app, ?He, ?Ho, ?Hcl, ?Hl.
    repeat split; try reflexivity; try discriminate. cbn; lia.
Qed.

(** [main] as the set-up followed by the polling. *)
Lemma run_main_unfold :
  missing_config settings = false ->
  run_main settings w
  = match setup_phase settings (setup w) None with
    | (t, _, Ret (Some room)) =>
        let '(t', s', r) := polling settings w room None in
        ([Log LogInitializing;
          ClientNew (homeserver (matrix settings)) (user (matrix settings))]
         ++ t ++ t', s', r)
    | (t, s, Ret None) =>
        ([Log LogInitializing;
          ClientNew (homeserver (matrix settings)) (user (matrix settings))]
         ++ t, s, Ret tt)
    | (t, s, Raise e) =>
        ([Log LogInitializing;
          ClientNew (homeserver (matrix settings)) (user (matrix settings))]
         ++ t, s, Raise e)
    | (t, s, Pending) =>
        ([Log LogInitializing;
          ClientNew (homeserver (matrix settings)) (user (matrix settings))]
         ++ t, s, Pending)
    end.
Proof.
  intros Hm. unfold run_main, main. rewrite Hm.
  cbv beta iota delta [bind log emit ret set_title].
  destruct (setup_phase settings (setup w) None) as [[t s] [[room |] | e |]];
    cbn [app]; try (rewrite app_nil_r; reflexivity); try reflexivity.
  destruct (polling settings w room None) as [[t' s'] r]. reflexivity.
Qed.

End Run.

(** ** The start of [main] *)

Lemma missing_config_iff (settings : Settings) :
  missing_config settings = true
  <-> user (matrix settings) = EmptyString
      \/ password (matrix settings) = EmptyString
      \/ room_id (matrix settings) = EmptyString
      \/ api_url (radio settings) = EmptyString.
Proof.
  unfold missing_config.
  destruct (user (matrix settings)), (password (matrix settings)),
    (room_id (matrix settings)), (api_url (radio settings));
    cbn [truthy andb negb]; split; auto; try discriminate;
    intros [H | [H | [H | H]]]; discriminate.
Qed.

(** X10: [main] logs the configuration error and returns, without
    building the Matrix client and without any call, exactly when the
    user, the password, the room or the API URL is the empty string. *)
Theorem main_stops_on_missing_config (settings : Settings) (w : world) :
  run_main settings w = ([Log LogMissingConfig], None, Ret tt)
  <-> user (matrix settings) = EmptyString
      \/ password (matrix settings) = EmptyString
      \/ room_id (matrix settings) = EmptyString
      \/ api_url (radio settings) = EmptyString.
Proof.
  rewrite <- missing_config_iff. split.
  - destruct (missing_config settings) eqn:Hm; [reflexivity |].
    rewrite (run_main_unfold settings w Hm).
    destruct (setup_phase settings (setup w) None) as [[t s] [[room |] | e |]];
      try discriminate.
    destruct (polling settings w room None) as [[t' s'] r]. discriminate.
  - intros Hm. unfold run_main, main. rewrite Hm. reflexivity.
Qed.

(** X10, witness: the settings of config.py when no source sets a field. *)
Lemma main_stops_on_missing_config_witness :
  run_main default_settings (mkWorld good_setup [])
  = ([Log LogMissingConfig], None, Ret tt).
Proof.
  apply (proj2 (main_stops_on_missing_config default_settings
                  (mkWorld good_setup []))).
  left. reflexivity.
Defined.

Lemma setup_event_on_room (settings : Settings) (env : setup_env) (ev : event) :
  setup_event settings env ev = true ->
  on_room (target_room settings env) ev = true.
Proof. destruct ev; cbn [setup_event on_room room_of]; auto; discriminate. Qed.

Lemma polling_event_on_room (settings : Settings) (room : string) (ev : event) :
  polling_event settings room ev = true -> on_room room ev = true.
Proof.
  destruct ev; cbn [polling_event loop_event on_room room_of]; auto;
    try discriminate; rewrite andb_true_iff; tauto.
Qed.

(** X11: with the four required settings present, [main] reaches the loop
    (it opens the HTTP client) exactly when the login returns a
    [LoginResponse], the alias resolves if [room_id] starts with '#', and
    the join returns a [JoinResponse]. *)
Theorem main_polls_iff_setup_succeeds (settings : Settings) (w : world) :
  missing_config settings = false ->
  (In HttpOpen (trace_of (run_main settings w))
   <-> setup_succeeds settings (setup w) = true).
Proof.
  intros Hm. rewrite (run_main_unfold settings w Hm).
  destruct (setup_phase_shape settings w None) as (He & _ & _ & Hr).
  assert (~ In HttpOpen (trace_of (setup_phase settings (setup w) None)))
    as Hno.
  { intros H. apply (forallb_In _ _ _ He) in H. discriminate H. }
  destruct (setup_phase settings (setup w) None) as [[t s] [[room |] | e |]];
    cbn [trace_of res_of fst snd] in *.
  - destruct Hr as (Hs & _). rewrite Hs.
    destruct (polling_shape settings w room None) as (_ & Hh & _).
    destruct (polling settings w room None) as [[t' s'] r].
    cbn [trace_of fst snd] in *. split; [reflexivity |]. intros _.
    destruct t' as [| ev t']; [discriminate Hh |]. injection Hh as ->.
    apply in_or_app. right. apply in_or_app. right. left. reflexivity.
  - rewrite Hr. split; [| discriminate]. intros [H | [H | H]];
      [discriminate H | discriminate H | destruct (Hno H)].
  - rewrite Hr. split; [| discriminate]. intros [H | [H | H]];
      [discriminate H | discriminate H | destruct (Hno H)].
  - destruct Hr.
Qed.

(** X11, witness: every call of the set-up succeeds. *)
Lemma main_polls_iff_setup_succeeds_witness :
  In HttpOpen (trace_of (run_main sample_settings (mkWorld good_setup []))).
Proof.
  apply (proj2 (main_polls_iff_setup_succeeds sample_settings
                  (mkWorld good_setup []) eq_refl)).
  reflexivity.
Defined.

(** X12: in every run, the join and every message and topic go to one
    room: the room the alias resolved to when [room_id] starts with '#',
    and [room_id] itself otherwise. *)
Theorem main_calls_target_room (settings : Settings) (w : world) :
  forallb (on_room (target_room settings (setup w)))
    (trace_of (run_main settings w)) = true.
Proof.
  destruct (missing_config settings) eqn:Hm.
  - unfold run_main, main. rewrite Hm. reflexivity.
  - rewrite (run_main_unfold settings w Hm).
    destruct (setup_phase_shape settings w None) as (He & _ & _ & Hr).
    apply (forallb_impl _ _ _ (setup_event_on_room settings (setup w))) in He.
    destruct (setup_phase settings (setup w) None) as [[t s] [[room |] | e |]];
      cbn [trace_of res_of fst snd] in *;
      try (cbn [app forallb on_room room_of]; exact He).
    destruct Hr as (_ & -> & _).
    destruct (polling_shape settings w (target_room settings (setup w)) None)
      as (Hp & _).
    apply (forallb_impl _ _ _ (polling_event_on_room settings _)) in Hp.
    destruct (polling settings w (target_room settings (setup w)) None)
      as [[t' s'] r].
    cbn [trace_of fst snd app forallb on_room room_of] in *.
    rewrite forallb_app, He, Hp. reflexivity.
Qed.

(** X13: with [send_messages] off no run ever calls [room_send], and with
    [update_topic] off no run ever calls [room_put_state]. *)
Theorem main_respects_flags (settings : Settings) (w : world) :
  (send_messages (matrix settings) = false ->
   count is_room_send (trace_of (run_main settings w)) = 0)
  /\ (update_topic (matrix settings) = false ->
      count is_put_state (trace_of (run_main settings w)) = 0).
Proof.
  assert (forall p,
             (forall ev, setup_event settings (setup w) ev = true ->
                         p ev = false) ->
             (forall room ev, polling_event settings room ev = true ->
                              p ev = false) ->
             p (Log LogInitializing) = false ->
             p (ClientNew (homeserver (matrix settings))
                  (user (matrix settings))) = false ->
             p (Log LogMissingConfig) = false ->
             count p (trace_of (run_main settings w)) = 0) as H.
  { intros p Hs Hp H1 H2 H3.
    destruct (missing_config settings) eqn:Hm.
    - unfold run_main, main. rewrite Hm. cbn [log emit trace_of fst].
      rewrite count_cons, H3. reflexivity.
    - rewrite (run_main_unfold settings w Hm).
      destruct (setup_phase_shape settings w None) as (He & _).
      pose proof (count_none p _ _ Hs He) as Hc.
      destruct (setup_phase settings (setup w) None)
        as [[t s] [[room |] | e |]];
        cbn [trace_of res_of fst snd app] in *;
        try (rewrite !count_cons, H1, H2, Hc; reflexivity).
      destruct (polling_shape settings w room None) as (Hq & _).
      pose proof (count_none p _ _ (Hp room) Hq) as Hc'.
      destruct (polling settings w room None) as [[t' s'] r].
      cbn [trace_of fst snd] in *.
      rewrite !count_cons, count_app, H1, H2, Hc, Hc'. reflexivity. }
  split; intros Hf; apply H; try reflexivity.
  - intros ev; destruct ev; cbn; auto; discriminate.
  - intros room ev; destruct ev; cbn [polling_event loop_event is_room_send];
      auto; try discriminate. rewrite Hf. discriminate.
  - intros ev; destruct ev; cbn; auto; discriminate.
  - intros room ev; destruct ev; cbn [polling_event loop_event is_put_state];
      auto; try discriminate. rewrite Hf. discriminate.
Qed.

(** X13, witness: with the default flags of config.py the topic is never
    put, whatever is polled. *)
Lemma main_respects_flags_witness :
  count is_put_state
    (trace_of (run_main messages_only_settings
                 (mkWorld good_setup
                    [good_poll (title_payload "Track 1");
                     good_poll (title_payload "Track 2")])))
  = 0.
Proof.
  apply (proj2 (main_respects_flags messages_only_settings
                  (mkWorld good_setup
                     [good_poll (title_payload "Track 1");
                      good_poll (title_payload "Track 2")]))).
  reflexivity.
Defined.

(** X14: when a run ends, the HTTP client was closed as often as it was
    opened, at most once, also when [logout] or [close] raised in the
    clean-up. *)
Theorem main_closes_http_client (settings : Settings) (w : world) :
  res_of (run_main settings w) <> Pending ->
  count is_http_close (trace_of (run_main settings w))
  = count is_http_open (trace_of (run_main settings w))
  /\ count is_http_open (trace_of (run_main settings w)) <= 1.
Proof.
  destruct (missing_config settings) eqn:Hm.
  - unfold run_main, main. rewrite Hm. intros _. cbn. lia.
  - rewrite (run_main_unfold settings w Hm).
    destruct (setup_phase_shape settings w None) as (He & _).
    pose proof (count_none is_http_open (setup_event settings (setup w)) _
                  ltac:(intros ev; destruct ev; cbn; auto; discriminate) He)
      as Ho.
    pose proof (count_none is_http_close (setup_event settings (setup w)) _
                  ltac:(intros ev; destruct ev; cbn; auto; discriminate) He)
      as Hc.
    destruct (setup_phase settings (setup w) None) as [[t s] [[room |] | e |]];
      cbn [trace_of res_of fst snd app] in *;
      try (intros _; rewrite !count_cons, Ho, Hc; cbn; lia).
    destruct (polling_shape settings w room None)
      as (_ & _ & Hpo & Hpc & _).
      destruct (polling settings w room None) as [[t' s'] r].
      cbn [trace_of res_of fst snd] in *. intros Hr.
      rewrite !count_cons, !count_app, Ho, Hc, Hpo, Hpc.
      destruct r; cbn; try lia. destruct (Hr eq_refl).
Qed.

(** X14, witness: the run in which [logout] raises in the clean-up. *)
Lemma main_closes_http_client_witness :
  count is_http_close
    (trace_of (run_main sample_settings
                 (mkWorld logout_raises_setup
                    [cancelled_poll (title_payload "Track 1")])))
  = count is_http_open
      (trace_of (run_main sample_settings
                   (mkWorld logout_raises_setup
                      [cancelled_poll (title_payload "Track 1")])))
  /\ count is_http_open
       (trace_of (run_main sample_settings
                    (mkWorld logout_raises_setup
                       [cancelled_poll (title_payload "Track 1")])))
     <= 1.
Proof.
  apply main_closes_http_client. discriminate.
Defined.

(** X15: a run logs out at most once, and only after a login that
    returned a [LoginResponse]: a run whose login returned a [LoginError] or
    raised never logs out. *)
Theorem main_logs_out_once (settings : Settings) (w : world) :
  count is_logout (trace_of (run_main settings w)) <= 1
  /\ (In ClientLogout (trace_of (run_main settings w)) ->
      login_out (setup w) = Ok LoginResponse).
Proof.
  destruct (missing_config settings) eqn:Hm.
  - unfold run_main, main. rewrite Hm. cbn [log emit trace_of fst].
    split; [cbn; lia |]. intros [H | []]. discriminate H.
  - rewrite (run_main_unfold settings w Hm).
    destruct (setup_phase_shape settings w None) as (_ & Hc & Hl & Hr).
    destruct (setup_phase settings (setup w) None) as [[t s] [[room |] | e |]];
      cbn [trace_of res_of fst snd app] in *;
      try (split;
           [ rewrite !count_cons; cbn [is_logout]; lia
           | intros [H | [H | H]];
             [discriminate H | discriminate H | exact (Hl H)] ]).
    destruct Hr as (Hs & _ & H0).
    destruct (polling_shape settings w room None)
      as (_ & _ & _ & _ & Hpl & _).
    destruct (polling settings w room None) as [[t' s'] r].
    cbn [trace_of fst snd] in *. split.
    + rewrite !count_cons, count_app. cbn [is_logout]. lia.
    + intros _. unfold setup_succeeds in Hs.
      destruct (login_out (setup w)) as [[| m] | e]; try discriminate Hs.
      reflexivity.
Qed.

(** ** The two calls of a dispatch *)

Section Dispatch.

Variables (settings : Settings) (room : string) (env : poll_env).

(** The topic is put after a message that was answered, whatever the
    answer, and is not put after a [room_send] that raised. *)
Lemma notify_topic (cur s : option string) (song : string) :
  update_topic (matrix settings) = true ->
  ((send_messages (matrix settings) = false
    \/ exists r, send_out env = Ok r) ->
   In (ClientRoomPutState room (topic_of settings song))
     (trace_of (notify settings room env cur song s)))
  /\ (send_messages (matrix settings) = true ->
      forall e,
        send_out env = Err e ->
        count is_put_state (trace_of (notify settings room env cur song s)) = 0
        /\ state_of (notify settings room env cur song s) = s
        /\ res_of (notify settings room env cur song s) = Raise e).
Proof.
  intros Hu. run_M. rewrite Hu.
  destruct (send_messages (matrix settings)),
    (send_out env) as [[| m1] | e1], (topic_out env) as [[| m2] | e2];
    cbn [app fst snd In];
    (split;
     [ intros [H | [r H]]; try discriminate H; tauto
     | intros H e He; try discriminate H; try discriminate He;
       injection He as <-; destruct cur; repeat split ]).
Qed.

End Dispatch.

(** X16: in an iteration that detects a change with [update_topic] set,
    the topic is put whenever the message is not asked for or [room_send]
    returned, also when it returned an error; when [room_send] raises, the
    topic is not put in that iteration and the previous title stays. *)
Theorem topic_follows_answered_send (settings : Settings) (room : string)
    (env : poll_env) (s : option string) (song : string) :
  polled_title env = Some song ->
  should_notify song s = true ->
  update_topic (matrix settings) = true ->
  ((send_messages (matrix settings) = false
    \/ exists r, send_out env = Ok r) ->
   In (ClientRoomPutState room (topic_of settings song))
     (trace_of (poll_once settings room env s)))
  /\ (send_messages (matrix settings) = true ->
      forall e,
        send_out env = Err e ->
        count is_put_state (trace_of (poll_once settings room env s)) = 0
        /\ state_of (poll_once settings room env s) = s).
Proof.
  intros Hp Hn Hu.
  destruct (poll_once_tail settings room env s) as (t' & r' & -> & He & _).
  rewrite (poll_body_polled settings room env song s Hp), Hn.
  destruct (notify_topic settings room env s s song Hu) as [H1 H2].
  destruct (notify settings room env s song s) as [[t s'] r].
  cbn [trace_of state_of res_of fst snd] in *. split.
  - intros H. apply in_or_app. left. right. exact (H1 H).
  - intros Hs e Hout. destruct (H2 Hs e Hout) as (Hc & Hst & _).
    split; [| exact Hst].
    rewrite count_app, count_cons, Hc.
    rewrite (count_none is_put_state (iteration_event settings room None) t');
      [reflexivity | | exact He].
    intros ev; destruct ev; cbn; auto; discriminate.
Qed.

(** X16, witness: the message is refused with an error response and the
    topic is put all the same. *)
Lemma topic_follows_answered_send_witness :
  In (ClientRoomPutState "!abc:matrix.org"
        (topic_of sample_settings "Track 2"))
    (trace_of (poll_once sample_settings "!abc:matrix.org"
                 (refused_poll (title_payload "Track 2")) (Some "Track 1"))).
Proof.
  apply (proj1 (topic_follows_answered_send sample_settings "!abc:matrix.org"
                  (refused_poll (title_payload "Track 2")) (Some "Track 1")
                  "Track 2" eq_refl eq_refl eq_refl)).
  right. eexists. reflexivity.
Defined.

(** ** A set-up that fails *)

(** X17: when the set-up does not go through, no call of it is interrupted
    and [close] returns, [main] returns normally, having closed the client
    exactly once and never having opened the HTTP client; this includes a
    login, an alias resolution, a join or a logout that raised an
    [Exception]. *)
Theorem main_returns_after_setup_failure (settings : Settings) (w : world) :
  missing_config settings = false ->
  setup_succeeds settings (setup w) = false ->
  close_out (setup w) = Ok tt ->
  handler_close_out (setup w) = Ok tt ->
  interrupted (login_out (setup w)) = false ->
  interrupted (resolve_out (setup w)) = false ->
  interrupted (join_out (setup w)) = false ->
  interrupted (logout_out (setup w)) = false ->
  res_of (run_main settings w) = Ret tt
  /\ closes (trace_of (run_main settings w)) = 1
  /\ count is_http_open (trace_of (run_main settings w)) = 0.
Proof.
  intros Hm Hf Hc Hh Hl Hr Hj Ho.
  pose proof (setup_phase_closes settings (setup w) None Hc Hh Hl Hr Hj Ho)
    as Hs.
  destruct (setup_phase_shape settings w None) as (He & _ & _ & Hsh).
  pose proof (count_none is_http_open (setup_event settings (setup w)) _
                ltac:(intros ev; destruct ev; cbn; auto; discriminate) He)
    as Hopen.
  rewrite (run_main_unfold settings w Hm).
  destruct (setup_phase settings (setup w) None) as [[t s] [[room |] | e |]];
    cbn [trace_of res_of fst snd] in *; try contradiction.
  - destruct Hsh as [Hsh _]. rewrite Hsh in Hf. discriminate.
  - split; [reflexivity |]. split.
    + rewrite closes_app, Hs. reflexivity.
    + rewrite count_app, Hopen. reflexivity.
Qed.

(** X17, witness: the alias does not resolve and the logout raises. *)
Lemma main_returns_after_setup_failure_witness :
  res_of (run_main sample_settings (mkWorld unresolved_setup [])) = Ret tt
  /\ closes (trace_of (run_main sample_settings (mkWorld unresolved_setup [])))
     = 1
  /\ count is_http_open
       (trace_of (run_main sample_settings (mkWorld unresolved_setup [])))
     = 0.
Proof.
  apply main_returns_after_setup_failure; reflexivity.
Defined.

(* ------------------------------------------------------------------ *)
(** * Mappings, and the keys of a list of pairs *)

(** X18: when a mapping validates, every field of the record is read by
    its name: it is the string stored under the name, and [None] when the
    key is missing or holds null; no field holds a value of another type. *)
Theorem model_validate_mapping_fields (d : list (pyval * pyval))
    (st : RadioStatus) (n : string) :
  In n field_names ->
  model_validate (PDict d) = Ok st ->
  field n st = as_field (dict_get d (PStr n))
  /\ str_or_none (dict_get d (PStr n)) = true.
Proof.
  intros Hn. unfold model_validate, parse_list. rewrite validate_model_dict.
  destruct (fields_valid d) eqn:Hv; [| discriminate]. intros [= <-].
  split; [apply field_status_of_dict, Hn |].
  unfold fields_valid in Hv.
  exact (forallb_In _ _ _ Hv Hn).
Qed.

(** X18, witness: a title, a null file name and an unknown key. *)
Lemma model_validate_mapping_fields_witness :
  field "title" (status_with (Some "Song A") None)
  = as_field (dict_get [(PStr "title", PStr "Song A");
                        (PStr "filename", PNone);
                        (PStr "bitrate", PInt 128)] (PStr "title"))
  /\ str_or_none (dict_get [(PStr "title", PStr "Song A");
                            (PStr "filename", PNone);
                            (PStr "bitrate", PInt 128)] (PStr "title"))
     = true.
Proof.
  apply (model_validate_mapping_fields
           [(PStr "title", PStr "Song A"); (PStr "filename", PNone);
            (PStr "bitrate", PInt 128)]
           (status_with (Some "Song A") None) "title").
  - unfold field_names. cbn [In]. tauto.
  - reflexivity.
Defined.

(** The comprehension raises exactly when a pair it keeps has a key that
    cannot be hashed. *)
Lemma dict_of_pairs_raises (items : list pyval) :
  forall acc,
    (exists e, dict_of_pairs acc items = Err e)
    <-> exists k v, In (PList [k; v]) items /\ hashable k = false.
Proof.
  induction items as [| item rest IH]; intros acc.
  - split; [intros [e H]; discriminate H | intros (k & v & [] & _)].
  - destruct (is_pair item) eqn:E.
    + destruct (is_pair_inv _ E) as (k & v & ->).
      rewrite dict_of_pairs_cons. destruct (hashable k) eqn:Hk.
      * rewrite IH. split; intros (k' & v' & Hin & Hh).
        -- exists k', v'. split; [right; exact Hin | exact Hh].
        -- destruct Hin as [[= <- <-] | Hin]; [congruence |].
           exists k', v'. auto.
      * split; [| intros _; eexists; reflexivity].
        intros _. exists k, v. split; [left; reflexivity | exact Hk].
    + rewrite dict_of_pairs_skip by exact E. rewrite IH.
      split; intros (k' & v' & Hin & Hh).
      * exists k', v'. split; [right; exact Hin | exact Hh].
      * destruct Hin as [-> | Hin]; [discriminate E |].
        exists k', v'. auto.
Qed.

Lemma dict_of_pairs_type_error (items : list pyval) :
  forall acc e, dict_of_pairs acc items = Err e -> e = TypeError.
Proof.
  induction items as [| item rest IH]; intros acc e; [discriminate |].
  destruct (is_pair item) eqn:Ep.
  - destruct (is_pair_inv _ Ep) as (k & v & ->).
    rewrite dict_of_pairs_cons. destruct (hashable k).
    + apply IH.
    + intros [= <-]. reflexivity.
  - rewrite dict_of_pairs_skip by exact Ep. apply IH.
Qed.

(** X19: [parse_list] raises exactly on a list that holds a two-element
    list whose first element is itself a list or a dict, a key that cannot
    be hashed, and the exception is then a [TypeError]; on every other
    payload it returns. *)
Theorem parse_list_raises_iff (data : pyval) :
  ((exists e, parse_list data = Err e)
   <-> exists items k v,
        data = PList items /\ In (PList [k; v]) items
        /\ hashable k = false)
  /\ (forall e, parse_list data = Err e -> e = TypeError).
Proof.
  unfold parse_list. split; [split |].
  - intros [e H]. destruct data; try discriminate H.
    destruct (dict_of_pairs [] items) as [d | e'] eqn:E; [discriminate H |].
    assert (exists e0, dict_of_pairs [] items = Err e0) as Hex by eauto.
    apply dict_of_pairs_raises in Hex. destruct Hex as (k & v & Hin & Hk).
    exists items, k, v. auto.
  - intros (items & k & v & -> & Hin & Hk).
    assert (exists e0, dict_of_pairs [] items = Err e0) as [e0 ->]
        by (apply dict_of_pairs_raises; eauto).
    eauto.
  - intros e H. destruct data; try discriminate H.
    destruct (dict_of_pairs [] items) as [d | e'] eqn:E; [discriminate H |].
    injection H as <-. exact (dict_of_pairs_type_error _ _ _ E).
Qed.
